(** * FTCNN geometry core: a shallow embedding of
    [ftcnn/geometry/polygons.py] and [ftcnn/geospacial/mapping.py].

    The geometry engine (shapely / GEOS) is an external library; its
    operations are collected in the class [Shapely] and the repository
    functions are written against that interface.  A concrete instance
    on the integer grid ([Grid]) is used to run the code on inputs. *)

From Stdlib Require Import List String Ascii ZArith QArith Qround Qminmax Bool Lia.
Import ListNotations.
Open Scope string_scope.
Open Scope list_scope.

(* ------------------------------------------------------------------ *)
(** ** Python exceptions and an error monad *)

(** Exceptions raised on the modelled paths. *)
Inductive exn :=
| TypeError
| ValueError
| KeyError
| IndexError
| AttributeError
| GEOSException
| RasterioIOError
| OSError.

Inductive result (A : Type) : Type :=
| Ok (a : A)
| Err (e : exn).
Arguments Ok {A} a.
Arguments Err {A} e.

Definition bind {A B} (m : result A) (k : A -> result B) : result B :=
  match m with
  | Ok a => k a
  | Err e => Err e
  end.

Notation "x <- m ;; k" := (bind m (fun x => k))
  (at level 61, m at next level, right associativity).

Definition is_ok {A} (r : result A) : bool :=
  match r with Ok _ => true | Err _ => false end.

(* ------------------------------------------------------------------ *)
(** ** The geometry engine (shapely) *)

Definition point := (Q * Q)%type.

(** The shapely operations the code calls.  [geoms] is the [.geoms]
    sequence of a multi-part geometry; [box] is [shapely.box];
    [Polygon] is the constructor [Polygon(shell)]; [empty_polygon]
    is [Polygon()]; [get_parts] is what [explode] splits a geometry
    into; [geom_eq_dec] is the exact equality [drop_duplicates] uses. *)
Class Shapely (G : Type) := {
  geom_type : G -> string;
  geoms : G -> list G;
  unary_union : list G -> G;
  coverage_union : G -> G -> result G;
  normalize : G -> G;
  simplify : Q -> G -> G;
  equals : G -> G -> bool;
  bounds : G -> Q * Q * Q * Q;
  box : Q -> Q -> Q -> Q -> G;
  intersects : G -> G -> bool;
  intersection : G -> G -> G;
  get_parts : G -> list G;
  Polygon : list point -> G;
  empty_polygon : G;
  area : G -> Q;
  geom_eq_dec : forall a b : G, {a = b} + {a <> b}
}.

(** Geometry kinds that carry a [.geoms] attribute in shapely 2. *)
Definition has_geoms (t : string) : bool :=
  existsb (String.eqb t)
    ["MultiPolygon"; "MultiLineString"; "MultiPoint"; "GeometryCollection"].

Section Polygons.
Context {G : Type} `{Shapely G}.

(** Attribute access [g.geoms]: an [AttributeError] on single-part
    geometries such as [Polygon]. *)
Definition py_geoms (g : G) : result (list G) :=
  if has_geoms (geom_type g) then Ok (geoms g) else Err AttributeError.

Definition box_of_bounds (b : Q * Q * Q * Q) : G :=
  let '(x0, y0, x1, y1) := b in box x0 y0 x1 y1.

(** [get_polygon_bboxes]: the boxes and the lines printed. *)
Definition get_polygon_bboxes (geom : G) : list G * list string :=
  if String.eqb (geom_type geom) "Polygon" then
    ([normalize (box_of_bounds (bounds geom))], [])
  else if String.eqb (geom_type geom) "MultiPolygon" then
    (map (fun g => normalize (box_of_bounds (bounds g))) (geoms geom), [])
  else ([], ["Unknown geometry type"]).

(** [for poly in union.geoms: if poly.equals(flat) or poly.equals(polygon):
    continue; ... break]: the first part that is a genuine merge. *)
Fixpoint first_merge (flat polygon : G) (parts : list G) : option G :=
  match parts with
  | [] => None
  | poly :: parts' =>
      if equals poly flat || equals poly polygon
      then first_merge flat polygon parts'
      else Some poly
  end.

(** [for i, flat in enumerate(flattened): ...]: [Some fl'] when some
    accumulated shape was replaced by a merge ([found = True]). *)
Fixpoint merge_into (polygon : G) (fl : list G) : result (option (list G)) :=
  match fl with
  | [] => Ok None
  | flat :: rest =>
      union <- coverage_union flat polygon ;;
      parts <- py_geoms union ;;
      match first_merge flat polygon parts with
      | Some poly => Ok (Some (poly :: rest))
      | None =>
          r <- merge_into polygon rest ;;
          Ok (option_map (cons flat) r)
      end
  end.

(** The outer loop over the normalized parts. *)
Fixpoint flatten_loop (flattened : list G) (cands : list G) : result (list G) :=
  match cands with
  | [] => Ok flattened
  | polygon :: cands' =>
      match flattened with
      | [] => flatten_loop [polygon] cands'
      | _ =>
          r <- merge_into polygon flattened ;;
          match r with
          | Some fl' => flatten_loop fl' cands'
          | None => flatten_loop (flattened ++ [polygon]) cands'
          end
      end
  end.

Definition get_geom_polygons (geom : G) (flatten : bool) : result (list G) :=
  if String.eqb (geom_type geom) "Polygon" then Ok [normalize geom]
  else if String.eqb (geom_type geom) "MultiPolygon" then
    if negb flatten then Ok (map normalize (geoms geom))
    else flatten_loop [] (map normalize (geoms geom))
  else Err ValueError.

End Polygons.

(** [polygon.exterior.coords]: the closed exterior ring of a Polygon,
    the one more shapely attribute [get_polygon_points] reads. *)
Class ShapelyExterior (G : Type) := {
  exterior_coords : G -> list point
}.

(** The two shapes of [get_polygon_points]'s result. *)
Inductive polygon_points :=
| RingPoints (pts : list point)
| PartRings (rings : list (list point)).

Section Points.
Context {G : Type} `{Shapely G} `{ShapelyExterior G}.

Definition get_polygon_points (polygon : G) : result polygon_points :=
  if String.eqb (geom_type polygon) "Polygon" then
    Ok (RingPoints (exterior_coords polygon))
  else if String.eqb (geom_type polygon) "MultiPolygon" then
    Ok (PartRings (map exterior_coords (geoms polygon)))
  else Err ValueError.

End Points.

(* ------------------------------------------------------------------ *)
(** ** Rows: pandas values and Python dicts *)

(** A cell value of a (Geo)DataFrame row. *)
Inductive value (G : Type) : Type :=
| VInt (z : Z)
| VStr (s : string)
| VGeom (g : G)
| VNone.
Arguments VInt {G} z.
Arguments VStr {G} s.
Arguments VGeom {G} g.
Arguments VNone {G}.

(** A Python dict with insertion order: an association list. *)
Definition dict (G : Type) := list (string * value G).

Fixpoint dict_get {G} (d : dict G) (k : string) : option (value G) :=
  match d with
  | [] => None
  | (k', v) :: d' => if String.eqb k k' then Some v else dict_get d' k
  end.

(** [d[k] = v]: overwrite in place, or append a new key. *)
Fixpoint dict_set {G} (d : dict G) (k : string) (v : value G) : dict G :=
  match d with
  | [] => [(k, v)]
  | (k', v') :: d' =>
      if String.eqb k k' then (k', v) :: d' else (k', v') :: dict_set d' k v
  end.

(** A GeoDataFrame: its rows in order, each the non-geometry columns as
    a dict (what [row.drop("geometry").to_dict()] gives) and the value of
    the active geometry column ["geometry"]. *)
Definition frame (G : Type) := list (dict G * G).

Section Rows.
Context {G : Type} `{Shapely G}.

Definition value_eq_dec (a b : value G) : {a = b} + {a <> b}.
Proof.
  decide equality; first [apply Z.eq_dec | apply string_dec | apply geom_eq_dec].
Defined.

Definition value_eqb (a b : value G) : bool :=
  if value_eq_dec a b then true else false.

Definition values_eqb (a b : list (value G)) : bool :=
  if list_eq_dec value_eq_dec a b then true else false.

Fixpoint mapM {A B} (f : A -> result B) (l : list A) : result (list B) :=
  match l with
  | [] => Ok []
  | x :: l' => y <- f x ;; ys <- mapM f l' ;; Ok (y :: ys)
  end.

(** [row[k]] on a row of a GeoDataFrame: the geometry column, or the
    cell of column [k]; a row whose dict lacks [k] holds NaN there,
    which pandas treats as missing like [None]. *)
Definition row_value (r : dict G * G) (k : string) : value G :=
  if String.eqb k "geometry" then VGeom (snd r)
  else match dict_get (fst r) k with Some v => v | None => VNone end.

Definition is_na (v : value G) : bool :=
  match v with VNone => true | _ => false end.

(** [k in gdf.columns]: the geometry column, or a key of some row.  A
    frame without rows carries no column names here; it is read as
    having the columns asked for. *)
Definition has_column (gdf : frame G) (k : string) : bool :=
  String.eqb k "geometry" ||
  match gdf with
  | [] => true
  | _ => existsb (fun r => match dict_get (fst r) k with Some _ => true | None => false end) gdf
  end.

(** The grouping keys pandas' [get_grouper] takes from a list [keys]:
    the rows' values in those columns when all are columns; otherwise,
    when the list is as long as the frame, the list itself as one label
    per row; otherwise a [KeyError] for the missing column. *)
Definition group_keys (gdf : frame G) (keys : list string) : result (list (list (value G))) :=
  if forallb (has_column gdf) keys then Ok (map (fun r => map (row_value r) keys) gdf)
  else if Nat.eqb (List.length keys) (List.length gdf) then Ok (map (fun k => [VStr k]) keys)
  else Err KeyError.

Fixpoint add_to_group (k : list (value G)) (r : dict G * G)
    (gs : list (list (value G) * frame G)) : list (list (value G) * frame G) :=
  match gs with
  | [] => [(k, [r])]
  | (k', rs) :: gs' =>
      if values_eqb k k' then (k', rs ++ [r]) :: gs'
      else (k', rs) :: add_to_group k r gs'
  end.

(** [gdf.groupby(group_by, sort=False)]: the groups in order of first
    appearance, each group's rows in frame order; with the default
    [dropna=True] a row whose key holds a missing value is in no group.
    pandas refuses [by=None] with a [TypeError] and an empty key list
    with a [ValueError]. *)
Definition groupby (gdf : frame G) (group_by : option (list string))
    : result (list (frame G)) :=
  match group_by with
  | None => Err TypeError
  | Some [] => Err ValueError
  | Some keys =>
      ks <- group_keys gdf keys ;;
      let kept := filter (fun kr => negb (existsb is_na (fst kr))) (combine ks gdf) in
      Ok (map snd (fold_left (fun acc kr => add_to_group (fst kr) (snd kr) acc) kept []))
  end.

(* ------------------------------------------------------------------ *)
(** ** [flatten_polygons]

    The dict [row] is built once per template and then mutated inside
    the loop [for bbox in ...: row["bbox"] = bbox; rows.append(row)]:
    [rows] holds references to it.  The state is a heap of dicts, the
    list of references appended to [rows], the list [geometry], and the
    lines printed. *)

Record fp_state := {
  heap : list (dict G);
  rows_refs : list nat;
  geometry : list G;
  stdout : list string
}.

Definition fp_init : fp_state :=
  {| heap := []; rows_refs := []; geometry := []; stdout := [] |}.

Fixpoint update_nth {A} (n : nat) (f : A -> A) (l : list A) : list A :=
  match l, n with
  | [], _ => []
  | x :: l', O => f x :: l'
  | x :: l', S n' => x :: update_nth n' f l'
  end.

(** A fresh dict on the heap, and its reference. *)
Definition alloc (d : dict G) (s : fp_state) : nat * fp_state :=
  (List.length (heap s),
   {| heap := heap s ++ [d]; rows_refs := rows_refs s;
      geometry := geometry s; stdout := stdout s |}).

Definition set_item (r : nat) (k : string) (v : value G) (s : fp_state) : fp_state :=
  {| heap := update_nth r (fun d => dict_set d k v) (heap s);
     rows_refs := rows_refs s; geometry := geometry s; stdout := stdout s |}.

Definition append_row (r : nat) (g : G) (s : fp_state) : fp_state :=
  {| heap := heap s; rows_refs := rows_refs s ++ [r];
     geometry := geometry s ++ [g]; stdout := stdout s |}.

Definition print (msgs : list string) (s : fp_state) : fp_state :=
  {| heap := heap s; rows_refs := rows_refs s;
     geometry := geometry s; stdout := stdout s ++ msgs |}.

(** [for bbox in bboxes: row["bbox"] = bbox; rows.append(row);
    geometry.append(polygon)]. *)
Fixpoint emit_bboxes (r : nat) (polygon : G) (bboxes : list G) (s : fp_state)
    : fp_state :=
  match bboxes with
  | [] => s
  | bbox :: bs =>
      emit_bboxes r polygon bs (append_row r polygon (set_item r "bbox" (VGeom bbox) s))
  end.

(** [for i, poly in enumerate(polygon.geoms): poly = normalize(poly);
    row = group.iloc[i].drop(geometry_column).to_dict(); ...].
    The normalized [poly] is not used afterwards. *)
Fixpoint multi_rows (group : frame G) (polygon : G) (i : nat) (parts : list G)
    (s : fp_state) : result fp_state :=
  match parts with
  | [] => Ok s
  | _ :: parts' =>
      match nth_error group i with
      | None => Err IndexError
      | Some (d, _) =>
          let '(r, s1) := alloc d s in
          let '(bbs, msgs) := get_polygon_bboxes polygon in
          multi_rows group polygon (S i) parts' (emit_bboxes r polygon bbs (print msgs s1))
      end
  end.

Definition flatten_group (group : frame G) (s : fp_state) : result fp_state :=
  let polygon := unary_union (map snd group) in
  if String.eqb (geom_type polygon) "MultiPolygon" then
    multi_rows group polygon 0 (geoms polygon) s
  else
    let polygon := normalize polygon in
    match nth_error group 0 with
    | None => Err IndexError
    | Some (d, _) =>
        let '(r, s1) := alloc d s in
        let '(bbs, msgs) := get_polygon_bboxes polygon in
        Ok (emit_bboxes r polygon bbs (print msgs s1))
    end.

Fixpoint flatten_groups (groups : list (frame G)) (s : fp_state) : result fp_state :=
  match groups with
  | [] => Ok s
  | g :: gs => s' <- flatten_group g s ;; flatten_groups gs s'
  end.

(** [gpd.GeoDataFrame(rows, geometry=geometry)]: each reference in [rows]
    read from the heap at the end. *)
Definition materialise (s : fp_state) : frame G :=
  combine (map (fun r => nth r (heap s) []) (rows_refs s)) (geometry s).

(** [flatten_polygons(gdf_src, geometry_column="geometry", group_by)]. *)
Definition flatten_polygons (gdf_src : frame G) (group_by : option (list string))
    : result (frame G) :=
  groups <- groupby gdf_src group_by ;;
  s <- flatten_groups groups fp_init ;;
  Ok (materialise s).

End Rows.

(* ------------------------------------------------------------------ *)
(** ** Raster footprints: rasterio's [Affine] and [Window] *)

(** [rasterio.Affine(a, b, c, d, e, f)]. *)
Record affine := {
  af_a : Q; af_b : Q; af_c : Q;
  af_d : Q; af_e : Q; af_f : Q
}.

(** [transform * (x, y)]. *)
Definition affine_apply (t : affine) (p : point) : point :=
  let '(x, y) := p in
  (af_a t * x + af_b t * y + af_c t, af_d t * x + af_e t * y + af_f t).

(** [rasterio.windows.Window(col_off, row_off, width, height)]. *)
Record window := {
  col_off : Q; row_off : Q;
  win_width : Q; win_height : Q
}.

(** The fields of an open raster dataset the code reads. *)
Record dataset := {
  ds_width : Z;
  ds_height : Z;
  ds_transform : affine
}.

(** [src.window_transform(window)], i.e. rasterio's [windows.transform]:
    [x, y = transform * (col_off, row_off)], then
    [Affine.translation(x - transform.c, y - transform.f) * transform]. *)
Definition window_transform (src : dataset) (w : window) : affine :=
  let t := ds_transform src in
  let '(x, y) := affine_apply t (col_off w, row_off w) in
  {| af_a := af_a t; af_b := af_b t; af_c := af_c t + (x - af_c t);
     af_d := af_d t; af_e := af_e t; af_f := af_f t + (y - af_f t) |}.

Section Footprint.
Context {G : Type} `{Shapely G}.

Definition create_tile_polygon (src : dataset) (tile_window : window) : G :=
  let tile_transform := window_transform src tile_window in
  let width := win_width tile_window in
  let height := win_height tile_window in
  Polygon
    [ affine_apply tile_transform (0, 0);
      affine_apply tile_transform (width, 0);
      affine_apply tile_transform (width, height);
      affine_apply tile_transform (0, height);
      affine_apply tile_transform (0, 0) ].

End Footprint.

(* ------------------------------------------------------------------ *)
(** ** [parse_polygon_str] and [normalize_polygon] *)

Definition isdigit (c : ascii) : bool :=
  let n := nat_of_ascii c in (48 <=? n)%nat && (n <=? 57)%nat.

Definition digit_at (s : list ascii) (i : Z) : bool :=
  match nth_error s (Z.to_nat i) with
  | Some c => isdigit c
  | None => false
  end.

(** The [while] loop moving [start] and [end] inwards; every round
    shrinks [end - start], so [length s] rounds suffice. *)
Fixpoint strip_loop (fuel : nat) (s : list ascii) (size start end_ : Z) : Z * Z :=
  match fuel with
  | O => (start, end_)
  | S fuel' =>
      if (start <? end_)%Z && (start <? size)%Z && (0 <=? end_)%Z
         && negb (digit_at s start && digit_at s end_)
      then
        let start' := if digit_at s start then start else (start + 1)%Z in
        let end' := if digit_at s end_ then end_ else (end_ - 1)%Z in
        strip_loop fuel' s size start' end'
      else (start, end_)
  end.

(** [s.split(", ")]. *)
Fixpoint split_comma_space (s : list ascii) (cur : list ascii) : list (list ascii) :=
  match s with
  | [] => [rev cur]
  | "," :: " " :: s' => rev cur :: split_comma_space s' []
  | c :: s' => split_comma_space s' (c :: cur)
  end%char.

(** [s.replace(" 0", "")]: left to right, non-overlapping. *)
Fixpoint drop_space_zero (s : list ascii) : list ascii :=
  match s with
  | " " :: "0" :: s' => drop_space_zero s'
  | c :: s' => c :: drop_space_zero s'
  | [] => []
  end%char.

Definition drop_char (c : ascii) (s : list ascii) : list ascii :=
  filter (fun c' => negb (Ascii.eqb c c')) s.

(** [str.isspace] on the characters of code below 256: [\t] to [\r],
    [\x1c] to [\x1f], space, [\x85] and [\xa0]. *)
Definition is_space (c : ascii) : bool :=
  existsb (fun n => (nat_of_ascii c =? n)%nat)
          [32; 9; 10; 11; 12; 13; 28; 29; 30; 31; 133; 160]%nat.

(** [s.split()]: runs of whitespace separate, empty fields dropped. *)
Fixpoint split_ws (s : list ascii) (cur : list ascii) : list (list ascii) :=
  match s with
  | [] => match cur with [] => [] | _ => [rev cur] end
  | c :: s' =>
      if is_space c then
        match cur with
        | [] => split_ws s' []
        | _ => rev cur :: split_ws s' []
        end
      else split_ws s' (c :: cur)
  end.

Section Normalize.
Context {G : Type} `{Shapely G}.

(** Python's [float(str)] on one field. *)
Context (py_float : string -> result Q).

Definition parse_point (token : list ascii) : result point :=
  let token := drop_char ")" (drop_char "(" (drop_space_zero token)) in
  match split_ws token [] with
  | [x; y] =>
      fx <- py_float (string_of_list_ascii x) ;;
      fy <- py_float (string_of_list_ascii y) ;;
      Ok (fx, fy)
  | _ => Err ValueError   (* [x, y = point.split()] *)
  end.

Definition parse_polygon_str (polygon_str : string) : result (list point) :=
  let s := list_ascii_of_string polygon_str in
  let size := Z.of_nat (List.length s) in
  let '(start, end_) := strip_loop (List.length s) s size 0 (size - 1) in
  let s := if (start <? size)%Z && (0 <=? end_)%Z
           then skipn (Z.to_nat start) (firstn (Z.to_nat (end_ + 1)) s)
           else s in
  mapM parse_point (split_comma_space s []).

(** An element of a Python coordinate list: a number or a pair. *)
Inductive py_elem :=
| PNum (q : Q)
| PPair (x y : Q).

Definition is_tuple (e : py_elem) : bool :=
  match e with PPair _ _ => true | PNum _ => false end.

(** The argument of [normalize_polygon]. *)
Inductive poly_input :=
| InPolygon (g : G)
| InStr (s : string)
| InList (l : list py_elem).

(** [[(polygon[i], polygon[i + 1]) for i in range(len(polygon) - 1)]]. *)
Definition flat_pairs (l : list py_elem) : list (py_elem * py_elem) :=
  map (fun i => (nth i l (PNum 0), nth (S i) l (PNum 0)))
      (seq 0 (List.length l - 1)).

(** [shapely.normalize] applied to a Python list of [n] coordinate
    tuples instead of a geometry.  numpy turns a homogeneous list into a
    numeric array, which the ufunc refuses with a [TypeError] ("provide
    only Geometry objects"); a ragged one fails in numpy with a
    [ValueError]; an empty one gives an empty array, on which the
    following [.simplify] is an [AttributeError]. *)
Definition normalize_list (n : nat) (homogeneous : bool) : result G :=
  match n with
  | O => Err AttributeError
  | S _ => if homogeneous then Err TypeError else Err ValueError
  end.

Definition normalize_polygon (polygon : poly_input) : result G :=
  match polygon with
  | InPolygon g => Ok (normalize (simplify (2 # 1000) g))
  | InList l =>
      match l with
      | [] => Err IndexError                         (* polygon[0] *)
      | first :: _ =>
          if is_tuple first then normalize_list (List.length l) (forallb is_tuple l)
          else
            let pairs := flat_pairs l in
            normalize_list (List.length pairs)
              (forallb (fun p => negb (is_tuple (fst p)) && negb (is_tuple (snd p))) pairs)
      end
  | InStr s =>
      pts <- parse_polygon_str s ;;
      normalize_list (List.length pts) true
  end.

End Normalize.

(* ------------------------------------------------------------------ *)
(** ** Paths (POSIX strings) *)

(** Index of the last occurrence of [c] in [s]. *)
Fixpoint rfind_aux (c : ascii) (s : list ascii) (i : nat) (best : option nat) : option nat :=
  match s with
  | [] => best
  | c' :: s' => rfind_aux c s' (S i) (if Ascii.eqb c c' then Some i else best)
  end.

Definition rfind (c : ascii) (s : list ascii) : option nat := rfind_aux c s 0 None.

(** [path.name]: the part after the last ["/"]. *)
Definition path_name (p : string) : string :=
  let s := list_ascii_of_string p in
  match rfind "/" s with
  | Some i => string_of_list_ascii (skipn (S i) s)
  | None => p
  end.

(** [path.stem] and [path.suffix]: split at the last ["."] of the
    name when [0 < i < len(name) - 1]. *)
Definition name_dot (name : list ascii) : option nat :=
  match rfind "." name with
  | Some i => if (0 <? i)%nat && (i <? List.length name - 1)%nat then Some i else None
  | None => None
  end.

Definition path_stem (p : string) : string :=
  let name := list_ascii_of_string (path_name p) in
  match name_dot name with
  | Some i => string_of_list_ascii (firstn i name)
  | None => string_of_list_ascii name
  end.

Definition path_suffix (p : string) : string :=
  let name := list_ascii_of_string (path_name p) in
  match name_dot name with
  | Some i => string_of_list_ascii (skipn i name)
  | None => ""
  end.

(** [os.path.splitext(p)[0]] (posixpath): cut at the last ["."] after
    the last ["/"], unless only dots precede it in the base name. *)
Definition splitext_root (p : string) : string :=
  let s := list_ascii_of_string p in
  let sep := match rfind "/" s with Some i => Z.of_nat i | None => (-1)%Z end in
  match rfind "." s with
  | Some d =>
      if (sep <? Z.of_nat d)%Z then
        let base := firstn (d - Z.to_nat (sep + 1)) (skipn (Z.to_nat (sep + 1)) s) in
        if existsb (fun c => negb (Ascii.eqb c ".")) base
        then string_of_list_ascii (firstn d s) else p
      else p
  | None => p
  end.

(** [needle in hay] for strings. *)
Definition str_contains (needle hay : string) : bool :=
  match String.index 0 needle hay with Some _ => true | None => false end.

(** [compare_stem(stem, names)]: some [name] contains
    [stem[:len(name)]]. *)
Definition compare_stem (stem : string) (names : list string) : bool :=
  existsb (fun name => str_contains (substring 0 (String.length name) stem) name) names.

Fixpoint unique_strings (l : list string) : list string :=
  match l with
  | [] => []
  | x :: l' => x :: filter (fun y => negb (String.eqb x y)) (unique_strings l')
  end.

(* ------------------------------------------------------------------ *)
(** ** [map_metadata] and [map_geometry_to_geotiffs] *)

(** A [preserve_fields] item and argument. *)
Inductive field_item :=
| FStr (s : string)
| FDict (m : list (string * string))
| FOther.

Inductive preserve :=
| PreserveDict (m : list (string * string))
| PreserveList (items : list field_item).

(** [field_map[k] = v] on a dict of strings. *)
Fixpoint smap_set (m : list (string * string)) (k v : string) : list (string * string) :=
  match m with
  | [] => [(k, v)]
  | (k', v') :: m' => if String.eqb k k' then (k', v) :: m' else (k', v') :: smap_set m' k v
  end.

Definition field_map_of (preserve_fields : option preserve) : list (string * string) :=
  match preserve_fields with
  | None => []
  | Some (PreserveDict m) => m
  | Some (PreserveList items) =>
      fold_left (fun fm item =>
                   match item with
                   | FStr s => smap_set fm s s
                   | FDict m => fold_left (fun fm' kv => smap_set fm' (fst kv) (snd kv)) m fm
                   | FOther => fm
                   end) items []
  end.

Section Mapping.
Context {G : Type} `{Shapely G}.

(** [row.get(k)] on a GeoDataFrame row: the geometry column included. *)
Definition row_get (r : dict G * G) (k : string) : option (value G) :=
  if String.eqb k "geometry" then Some (VGeom (snd r)) else dict_get (fst r) k.

Definition in_row (k : string) (r : dict G * G) : bool :=
  match row_get r k with Some _ => true | None => false end.

(** The file system and image readers [map_metadata] consults:
    [Path.exists], and the [(width, height)] of an opened image
    ([None] when [open_raster] / [Image.open] fails). *)
Context (path_exists : string -> bool).
Context (open_image : string -> option (Z * Z)).
Context (parse_filename : dict G * G -> string).

(** [r["path"] == path] compares a [str] with a [pathlib.Path]: never
    equal in Python. *)
Definition str_eq_path (s : value G) (p : string) : bool := false.

(** [for new_col, old_col in field_map.items(): ...]. *)
Fixpoint add_fields (fm : list (string * string)) (r : dict G * G) (md : dict G)
    : result (dict G) :=
  match fm with
  | [] => Ok md
  | (new_col, old_col) :: fm' =>
      if negb (in_row old_col r) then Err KeyError
      else add_fields fm' r (dict_set md new_col
                              (match row_get r old_col with Some v => v | None => VNone end))
  end.

(** The error of the failed [with open_fn(path) as img].  [Image.open]
    raises an [OSError] ([FileNotFoundError], [UnidentifiedImageError]).
    Modelled from the spec: [open_raster] (in [ftcnn.raster], not part
    of these sources) raises the spec's RasterOpenError on an unreadable
    raster, written as rasterio's [RasterioIOError]. *)
Definition open_error (path : string) : exn :=
  if existsb (String.eqb (path_suffix path)) [".tiff"; ".tif"]
  then RasterioIOError else OSError.

(** One iteration of [for _, row in gdf_src.iterrows()]. *)
Definition metadata_step (images_dir : string) (fm : list (string * string))
    (out : frame G) (row : dict G * G) : result (frame G) :=
  let filename := parse_filename row in
  let path := (images_dir ++ "/" ++ filename)%string in
  if path_exists path then
    if existsb (fun r => match dict_get (fst r) "path" with
                         | Some v => str_eq_path v path
                         | None => false
                         end) out
    then Ok out
    else
      match open_image path with
      | None => Err (open_error path)
      | Some (width, height) =>
          let metadata : dict G :=
            [("filename", VStr filename); ("path", VStr path);
             ("width", VInt width); ("height", VInt height);
             ("bbox", match row_get row "bbox" with Some v => v | None => VNone end)] in
          md <- add_fields fm row metadata ;;
          Ok (out ++ [(md, snd row)])
      end
  else Ok out.

Fixpoint metadata_loop (images_dir : string) (fm : list (string * string))
    (out : frame G) (rows : frame G) : result (frame G) :=
  match rows with
  | [] => Ok out
  | row :: rows' =>
      out' <- metadata_step images_dir fm out row ;;
      metadata_loop images_dir fm out' rows'
  end.

Definition map_metadata (gdf_src : frame G) (images_dir : string)
    (preserve_fields : option preserve) : result (frame G) :=
  metadata_loop images_dir (field_map_of preserve_fields) [] gdf_src.

(** [rasterio.open(path)] on the tiles, and the repository's
    [create_window(col_off, row_off, width, height)]. *)
Context (raster_open : string -> option dataset).
Context (create_window : Z -> Z -> Z -> Z -> window).

(** [orig_stems]: [os.path.splitext(name)[0]] for the names of
    [gdf["filename"].unique()]: a [KeyError] when the column is absent,
    and a [TypeError] from [splitext] on a value that is not a string
    (a missing cell is NaN). *)
Definition orig_stems (gdf : frame G) : result (list string) :=
  if negb (has_column gdf "filename") then Err KeyError
  else
    names <- mapM (fun r => match row_value r "filename" with
                            | VStr s => Ok s
                            | _ => Err TypeError
                            end) gdf ;;
    Ok (map splitext_root (unique_strings names)).

(** [image_paths]: the listed [.tif] files that pass [compare_stem]. *)
Definition image_paths (stems : list string) (tif_files : list string) : list string :=
  filter (fun p => compare_stem (path_stem p) stems) tif_files.

Definition tile_footprint (src : dataset) : G :=
  create_tile_polygon src (create_window 0 0 (ds_width src) (ds_height src)).

Definition tile_row (path : string) (src : dataset) : dict G :=
  [("filename", VStr (path_name path)); ("path", VStr path);
   ("width", VInt (ds_width src)); ("height", VInt (ds_height src))].

(** The rows one tile adds. *)
Definition tile_rows (gdf : frame G) (path : string) : result (frame G) :=
  match raster_open path with
  | None => Err RasterioIOError
  | Some src =>
      let tile_polygon := tile_footprint src in
      let intersecting := filter (fun r => intersects (snd r) tile_polygon) gdf in
      let row := tile_row path src in
      match intersecting with
      | [] => Ok [(row, empty_polygon)]
      | _ => Ok (map (fun r => (row, intersection (snd r) tile_polygon)) intersecting)
      end
  end.

Fixpoint tiles_loop (gdf : frame G) (paths : list string) : result (frame G) :=
  match paths with
  | [] => Ok []
  | p :: ps =>
      rs <- tile_rows gdf p ;;
      rest <- tiles_loop gdf ps ;;
      Ok (rs ++ rest)
  end.

(** [.explode()]: one row per part. *)
Definition explode (f : frame G) : frame G :=
  flat_map (fun r => map (fun g => (fst r, g)) (get_parts (snd r))) f.

Definition row_eq_dec (a b : dict G * G) : {a = b} + {a <> b}.
Proof.
  decide equality; [apply geom_eq_dec |].
  apply list_eq_dec; intros x y; decide equality;
    [apply value_eq_dec | apply string_dec].
Defined.

(** [.drop_duplicates()]: keep the first of equal rows. *)
Fixpoint drop_duplicates_aux (seen : frame G) (f : frame G) : frame G :=
  match f with
  | [] => []
  | r :: f' =>
      if existsb (fun s => if row_eq_dec r s then true else false) seen
      then drop_duplicates_aux seen f'
      else r :: drop_duplicates_aux (seen ++ [r]) f'
  end.

Definition drop_duplicates (f : frame G) : frame G := drop_duplicates_aux [] f.

(** [map_geometry_to_geotiffs(gdf, img_dir, recurse)], given the list
    [collect_files_with_suffix(".tif", img_dir, recurse=recurse)]. *)
Definition map_geometry_to_geotiffs (gdf : frame G) (tif_files : list string)
    : result (frame G) :=
  stems <- orig_stems gdf ;;
  rows <- tiles_loop gdf (image_paths stems tif_files) ;;
  Ok (drop_duplicates (explode rows)).

End Mapping.

(* ------------------------------------------------------------------ *)
(** ** A concrete geometry engine on the integer grid

    A polygonal geometry is the set of unit cells [[i, i+1] x [j, j+1]]
    it covers.  This is exact for rectilinear polygons with integer
    vertices (the only ones used below): there unions, intersections
    and areas are those of the cell sets, a union is a [Polygon] when its
    cells are edge-connected and a [MultiPolygon] of the connected
    pieces otherwise, and simplification at tolerance [0.002] removes
    only collinear vertices, so it keeps the region.  [coverage_union]
    performs GEOS's check that the output area equals the summed input
    area, raising otherwise.  Lower-dimensional intersections (shared
    edges or corners) are not represented: they come out empty. *)
Module Grid.

Definition cell := (Z * Z)%type.

Inductive ggeom :=
| GPolygon (cs : list cell)
| GMultiPolygon (ps : list (list cell))
| GPoint (x y : Z).

Definition cell_eq_dec (a b : cell) : {a = b} + {a <> b}.
Proof. decide equality; apply Z.eq_dec. Defined.

Definition cell_eqb (a b : cell) : bool := if cell_eq_dec a b then true else false.

Definition cell_leb (a b : cell) : bool :=
  (fst a <? fst b)%Z || ((fst a =? fst b)%Z && (snd a <=? snd b)%Z).

Fixpoint insert (c : cell) (l : list cell) : list cell :=
  match l with
  | [] => [c]
  | x :: l' => if cell_leb c x then c :: l else x :: insert c l'
  end.

Fixpoint dedup (l : list cell) : list cell :=
  match l with
  | [] => []
  | x :: l' => if existsb (cell_eqb x) l' then dedup l' else x :: dedup l'
  end.

(** The sorted list of the distinct cells. *)
Definition canon (l : list cell) : list cell := fold_right insert [] (dedup l).

Definition cells_eqb (a b : list cell) : bool :=
  if list_eq_dec cell_eq_dec (canon a) (canon b) then true else false.

Definition adj (a b : cell) : bool :=
  (Z.abs (fst a - fst b) + Z.abs (snd a - snd b) =? 1)%Z.

(** Flood fill: move the neighbours of [comp] out of [rest]. *)
Fixpoint grow (fuel : nat) (comp rest : list cell) : list cell * list cell :=
  match fuel with
  | O => (comp, rest)
  | S fuel' =>
      let '(nb, rest') := partition (fun c => existsb (adj c) comp) rest in
      match nb with
      | [] => (comp, rest)
      | _ => grow fuel' (comp ++ nb) rest'
      end
  end.

Fixpoint components (fuel : nat) (cs : list cell) : list (list cell) :=
  match fuel with
  | O => []
  | S fuel' =>
      match cs with
      | [] => []
      | c :: cs' =>
          let '(comp, rest) := grow (List.length cs') [c] cs' in
          canon comp :: components fuel' rest
      end
  end.

Definition of_cells (cs : list cell) : ggeom :=
  let cs := canon cs in
  match components (List.length cs) cs with
  | [] => GPolygon []
  | [c] => GPolygon c
  | ps => GMultiPolygon ps
  end.

Definition cells_of (g : ggeom) : list cell :=
  match g with
  | GPolygon cs => cs
  | GMultiPolygon ps => List.concat ps
  | GPoint _ _ => []
  end.

Definition g_geom_type (g : ggeom) : string :=
  match g with
  | GPolygon _ => "Polygon"
  | GMultiPolygon _ => "MultiPolygon"
  | GPoint _ _ => "Point"
  end.

Definition g_geoms (g : ggeom) : list ggeom :=
  match g with
  | GMultiPolygon ps => map GPolygon ps
  | _ => []
  end.

Definition g_unary_union (gs : list ggeom) : ggeom := of_cells (List.concat (map cells_of gs)).

Definition g_coverage_union (a b : ggeom) : result ggeom :=
  let ca := canon (cells_of a) in
  let cb := canon (cells_of b) in
  if (List.length (canon (ca ++ cb)) =? List.length ca + List.length cb)%nat
  then Ok (of_cells (ca ++ cb))
  else Err GEOSException.

Definition g_normalize (g : ggeom) : ggeom :=
  match g with
  | GPolygon cs => GPolygon (canon cs)
  | GMultiPolygon ps => GMultiPolygon (map canon ps)
  | GPoint x y => GPoint x y
  end.

Definition g_equals (a b : ggeom) : bool :=
  match a, b with
  | GPoint x y, GPoint x' y' => (x =? x')%Z && (y =? y')%Z
  | GPoint _ _, _ | _, GPoint _ _ => false
  | _, _ => cells_eqb (cells_of a) (cells_of b)
  end.

Definition zmin (l : list Z) (d : Z) : Z := fold_left Z.min l (hd d l).
Definition zmax (l : list Z) (d : Z) : Z := fold_left Z.max l (hd d l).

Definition g_bounds (g : ggeom) : Q * Q * Q * Q :=
  match g with
  | GPoint x y => (inject_Z x, inject_Z y, inject_Z x, inject_Z y)
  | _ =>
      let cs := cells_of g in
      let xs := map fst cs in
      let ys := map snd cs in
      (inject_Z (zmin xs 0), inject_Z (zmin ys 0),
       inject_Z (zmax xs (-1) + 1), inject_Z (zmax ys (-1) + 1))
  end.

Definition Qltb (a b : Q) : bool := negb (Qle_bool b a).

(** Does the ray from [c] to the right cross the edge [p]-[q]? *)
Definition crosses (c p q : point) : bool :=
  let '(cx, cy) := c in
  let '(px, py) := p in
  let '(qx, qy) := q in
  if Bool.eqb (Qltb cy py) (Qltb cy qy) then false
  else Qltb cx ((qx - px) * (cy - py) / (qy - py) + px).

Fixpoint inside (c : point) (ring : list point) : bool :=
  match ring with
  | p :: ((q :: _) as rest) => xorb (crosses c p q) (inside c rest)
  | _ => false
  end.

Definition zrange (lo hi : Z) : list Z :=
  map (fun k => lo + Z.of_nat k)%Z (seq 0 (Z.to_nat (hi - lo))).

(** [Polygon(shell)]: the cells whose centre lies inside the ring. *)
Definition g_polygon (ring : list point) : ggeom :=
  let xs := map fst ring in
  let ys := map snd ring in
  let x0 := Qfloor (fold_left Qmin xs (hd 0 xs)) in
  let x1 := Qceiling (fold_left Qmax xs (hd 0 xs)) in
  let y0 := Qfloor (fold_left Qmin ys (hd 0 ys)) in
  let y1 := Qceiling (fold_left Qmax ys (hd 0 ys)) in
  GPolygon
    (filter (fun c => inside (inject_Z (fst c) + (1 # 2), inject_Z (snd c) + (1 # 2)) ring)
       (flat_map (fun i => map (fun j => (i, j)) (zrange y0 y1)) (zrange x0 x1))).

(** [shapely.box(xmin, ymin, xmax, ymax)] (counter-clockwise). *)
Definition g_box (x0 y0 x1 y1 : Q) : ggeom :=
  g_polygon [(x1, y0); (x1, y1); (x0, y1); (x0, y0); (x1, y0)].

Definition touch (a b : cell) : bool :=
  (Z.abs (fst a - fst b) <=? 1)%Z && (Z.abs (snd a - snd b) <=? 1)%Z.

Definition point_on_cell (x y : Z) (c : cell) : bool :=
  (fst c <=? x)%Z && (x <=? fst c + 1)%Z && (snd c <=? y)%Z && (y <=? snd c + 1)%Z.

Definition g_intersects (a b : ggeom) : bool :=
  match a, b with
  | GPoint x y, GPoint x' y' => (x =? x')%Z && (y =? y')%Z
  | GPoint x y, g | g, GPoint x y => existsb (point_on_cell x y) (cells_of g)
  | _, _ => existsb (fun c => existsb (touch c) (cells_of b)) (cells_of a)
  end.

Definition g_intersection (a b : ggeom) : ggeom :=
  match a, b with
  | GPoint x y, _ | _, GPoint x y =>
      if g_intersects a b then GPoint x y else GPolygon []
  | _, _ => of_cells (filter (fun c => existsb (cell_eqb c) (cells_of b)) (cells_of a))
  end.

Definition g_get_parts (g : ggeom) : list ggeom :=
  match g with
  | GMultiPolygon ps => map GPolygon ps
  | _ => [g]
  end.

Definition g_area (g : ggeom) : Q := inject_Z (Z.of_nat (List.length (canon (cells_of g)))).

Definition ggeom_eq_dec (a b : ggeom) : {a = b} + {a <> b}.
Proof.
  decide equality; try apply Z.eq_dec;
    repeat first [apply list_eq_dec | apply cell_eq_dec].
Defined.

#[global] Instance grid_shapely : Shapely ggeom := {|
  geom_type := g_geom_type;
  geoms := g_geoms;
  unary_union := g_unary_union;
  coverage_union := g_coverage_union;
  normalize := g_normalize;
  simplify := fun _ g => g;
  equals := g_equals;
  bounds := g_bounds;
  box := g_box;
  intersects := g_intersects;
  intersection := g_intersection;
  get_parts := g_get_parts;
  Polygon := g_polygon;
  empty_polygon := GPolygon [];
  area := g_area;
  geom_eq_dec := ggeom_eq_dec
|}.

(** The rectangle [[x0, x1] x [y0, y1]] as a closed ring. *)
Definition rect (x0 y0 x1 y1 : Z) : list point :=
  [(inject_Z x0, inject_Z y0); (inject_Z x1, inject_Z y0);
   (inject_Z x1, inject_Z y1); (inject_Z x0, inject_Z y1);
   (inject_Z x0, inject_Z y0)].

End Grid.

(* ------------------------------------------------------------------ *)
(** ** Helper predicates for the statements *)

Section Statements.
Context {G : Type} `{Shapely G}.

(** The row's ["path"] column is [p]. *)
Definition row_path_is (p : string) (r : dict G * G) : bool :=
  match dict_get (fst r) "path" with
  | Some (VStr q) => String.eqb q p
  | _ => false
  end.

(** The union of a group, and whether its part count exceeds the
    group's size (the precondition of [flatten_polygons]). *)
Definition group_union (group : frame G) : G := unary_union (map snd group).

Definition too_many_parts (group : frame G) : Prop :=
  geom_type (group_union group) = "MultiPolygon" /\
  (List.length group < List.length (geoms (group_union group)))%nat.

Context (raster_open : string -> option dataset).
Context (create_window : Z -> Z -> Z -> Z -> window).

(** Assumption on the geometry engine for the given tiles: a record
    geometry that intersects a footprint has a non-empty clipped part
    list. *)
Definition clips_nonempty (gdf : frame G) (paths : list string) : bool :=
  forallb (fun p =>
    match raster_open p with
    | Some src =>
        let fp := tile_footprint create_window src in
        forallb (fun r => negb (intersects (snd r) fp)
                          || negb (match get_parts (intersection (snd r) fp) with
                                   | [] => true | _ => false end)) gdf
    | None => true
    end) paths.

End Statements.

(* ------------------------------------------------------------------ *)
(** ** Concrete inputs on the grid engine *)

Module Inputs.
Import Grid.

(** The two overlapping squares of the spec as one MultiPolygon. *)
Definition square_a : ggeom := g_polygon (rect 0 0 2 2).
Definition square_b : ggeom := g_polygon (rect 1 1 3 3).
Definition two_squares : ggeom := GMultiPolygon [cells_of square_a; cells_of square_b].

(** Two records of one group whose geometries are disjoint unit squares. *)
Definition unit_a : ggeom := g_polygon (rect 0 0 1 1).
Definition unit_b : ggeom := g_polygon (rect 3 0 4 1).
Definition two_records : frame ggeom :=
  [([("id", VInt 1%Z); ("name", VStr "a")], unit_a);
   ([("id", VInt 1%Z); ("name", VStr "b")], unit_b)].

(** One record whose geometry is itself a two-part MultiPolygon. *)
Definition one_multi_record : frame ggeom :=
  [([("id", VInt 1%Z)], GMultiPolygon [cells_of unit_a; cells_of unit_b])].

(** The identity transform and the 10 x 10 window at the origin. *)
Definition identity_affine : affine :=
  {| af_a := 1; af_b := 0; af_c := 0; af_d := 0; af_e := 1; af_f := 0 |}.
Definition raster10 : dataset :=
  {| ds_width := 10; ds_height := 10; ds_transform := identity_affine |}.
Definition window10 : window :=
  {| col_off := 0; row_off := 0; win_width := 10; win_height := 10 |}.

(** rasterio's [Window(col_off, row_off, width, height)] from integers. *)
Definition window_of (c r w h : Z) : window :=
  {| col_off := inject_Z c; row_off := inject_Z r;
     win_width := inject_Z w; win_height := inject_Z h |}.

(** Two 2 x 2 tiles, at the origin and shifted by 10 in x, and one
    annotation record inside the first. *)
Definition tile_files : list string := ["/d/tile_a.tif"; "/d/tile_b.tif"].
Definition tiles_open (p : string) : option dataset :=
  if String.eqb p "/d/tile_a.tif" then
    Some {| ds_width := 2; ds_height := 2; ds_transform := identity_affine |}
  else if String.eqb p "/d/tile_b.tif" then
    Some {| ds_width := 2; ds_height := 2;
            ds_transform := {| af_a := 1; af_b := 0; af_c := 10;
                               af_d := 0; af_e := 1; af_f := 0 |} |}
  else None.
Definition annotations : frame ggeom :=
  [([("filename", VStr "tile.tif"); ("label", VInt 3%Z)], unit_a)].

(** The frame [map_geometry_to_geotiffs] returns on these tiles: the
    clipped square for the first, the [Polygon()] row for the second. *)
Definition tile_b_src : dataset :=
  {| ds_width := 2; ds_height := 2;
     ds_transform := {| af_a := 1; af_b := 0; af_c := 10; af_d := 0; af_e := 1; af_f := 0 |} |}.
Definition tiles_out : frame ggeom :=
  [([("filename", VStr "tile_a.tif"); ("path", VStr "/d/tile_a.tif");
     ("width", VInt 2%Z); ("height", VInt 2%Z)], GPolygon [(0%Z, 0%Z)]);
   ([("filename", VStr "tile_b.tif"); ("path", VStr "/d/tile_b.tif");
     ("width", VInt 2%Z); ("height", VInt 2%Z)], GPolygon [])].

(** A metadata source: two rows, only the second image exists. *)
Definition meta_rows : frame ggeom :=
  [([("filename", VStr "x.png")], unit_a);
   ([("filename", VStr "y.png")], unit_b)].
Definition meta_exists (p : string) : bool := String.eqb p "/img/y.png".
Definition meta_open (p : string) : option (Z * Z) :=
  if String.eqb p "/img/y.png" then Some (64%Z, 48%Z) else None.
Definition meta_name (r : dict ggeom * ggeom) : string :=
  match dict_get (fst r) "filename" with Some (VStr s) => s | _ => "" end.

(** The exterior ring of a grid geometry, taken as the ring of its
    bounding box: exact for the rectangles used below. *)
#[global] Instance grid_exterior : ShapelyExterior ggeom := {|
  exterior_coords := fun g =>
    let '(x0, y0, x1, y1) := g_bounds g in
    [(x0, y0); (x1, y0); (x1, y1); (x0, y1); (x0, y0)]
|}.

(** Python's [float] on a string of decimal digits. *)
Definition digits_float (s : string) : result Q :=
  let l := list_ascii_of_string s in
  match l with
  | [] => Err ValueError
  | _ =>
      if forallb isdigit l
      then Ok (inject_Z (fold_left (fun acc c => acc * 10 + (Z.of_nat (nat_of_ascii c) - 48))%Z l 0%Z))
      else Err ValueError
  end.

End Inputs.

(* ------------------------------------------------------------------ *)
(** ** Text of coordinate strings, for the statements on [parse_polygon_str] *)

(** [", ".join(tokens)]. *)
Fixpoint join_comma_space (ts : list (list ascii)) : list ascii :=
  match ts with
  | [] => []
  | [t] => t
  | t :: ts' => t ++ "," :: " " :: join_comma_space ts'
  end%char.

(** The point text ["x y"], and ["x y 0"] with a zero third coordinate. *)
Definition point_token (xy : list ascii * list ascii) : list ascii :=
  (fst xy ++ " " :: snd xy)%char.



(** A non-empty run of decimal digits. *)
Definition digit_run (l : list ascii) : bool :=
  match l with [] => false | _ => forallb isdigit l end.

(** A digit run whose first digit is not [0]. *)
Definition digit_run_nz (l : list ascii) : bool :=
  match l with
  | c :: _ => digit_run l && negb (Ascii.eqb c "0")
  | [] => false
  end.


(** Tokens of a coordinate string: first and last character a digit,
    no comma, no digit at all. *)
Definition starts_digit (t : list ascii) : bool :=
  match t with c :: _ => isdigit c | [] => false end.
Definition ends_digit (t : list ascii) : bool := starts_digit (rev t).
Definition no_comma (t : list ascii) : bool := forallb (fun c => negb (Ascii.eqb c ",")) t.
Definition no_digit (t : list ascii) : bool := forallb (fun c => negb (isdigit c)) t.

(* ------------------------------------------------------------------ *)
(** ** Shapes of the geometry the code is given *)

Section Shapes.
Context {G : Type} `{Shapely G}.

(** [coverage_union(a, b)] succeeds and gives back [a] and [b] as its
    separate parts: the merge test of [get_geom_polygons] fails. *)
Definition no_merge (a b : G) : bool :=
  match coverage_union a b with
  | Ok u => has_geoms (geom_type u) && forallb (fun p => equals p a || equals p b) (geoms u)
  | Err _ => false
  end.
(** No two of the parts are merged by [coverage_union]. *)
Fixpoint kept_apart (l : list G) : bool :=
  match l with
  | [] => true
  | x :: l' => forallb (no_merge x) l' && kept_apart l'
  end.

(** The [geometry] column [flatten_polygons] builds for one group:
    a MultiPolygon union [U] of [n] parts is appended [n] times per part
    (once per bounding box of [U]); otherwise [normalize(U)] once per
    bounding box. *)
Definition group_geometry (group : frame G) : list G :=
  let U := group_union group in
  if String.eqb (geom_type U) "MultiPolygon"
  then repeat U (List.length (geoms U) * List.length (geoms U))
  else repeat (normalize U) (List.length (fst (get_polygon_bboxes (normalize U)))).
End Shapes.

(* ================================================================== *)
(** * Properties *)

Section Geometry_props.
Context {G : Type} `{Shapely G}.

Lemma first_merge_none (flat polygon : G) (parts : list G) :
  forallb (fun p => equals p flat || equals p polygon) parts = true ->
  first_merge flat polygon parts = None.
Proof.
  induction parts as [| p ps IH]; simpl; [reflexivity |].
  intro Hall; apply andb_prop in Hall as [Hp Hps].
  rewrite Hp; exact (IH Hps).
Qed.

(** C3.  Flattening a MultiPolygon of two parts [a] and [b]: whenever
    [coverage_union] of the normalized parts raises, returns a
    single-part geometry (which has no [.geoms]), or returns parts that
    each equal one of the inputs, the outcome is never exactly one
    polygon: it is an error, or the two parts left unmerged. *)
Theorem flatten_two_parts_never_one (geom a b : G) :
  geom_type geom = "MultiPolygon" ->
  geoms geom = [a; b] ->
  match coverage_union (normalize a) (normalize b) with
  | Err _ => True
  | Ok u =>
      has_geoms (geom_type u) = false \/
      forallb (fun p => equals p (normalize a) || equals p (normalize b)) (geoms u) = true
  end ->
  forall p, get_geom_polygons geom true <> Ok [p].
Proof.
  intros Hty Hparts Hcu p.
  unfold get_geom_polygons; rewrite Hty, Hparts; simpl.
  destruct (coverage_union (normalize a) (normalize b)) as [u | e]; simpl;
    [| discriminate].
  unfold py_geoms.
  destruct Hcu as [Hno | Hall].
  - rewrite Hno; simpl; discriminate.
  - destruct (has_geoms (geom_type u)); simpl; [| discriminate].
    rewrite (first_merge_none _ _ _ Hall); simpl; discriminate.
Qed.

(** C5.  The footprint is [Polygon] applied, with nothing else, to the
    window transform of the corners (0,0), (w,0), (w,h), (0,h) and
    (0,0) again; each corner is the dataset transform of the pixel
    [(col_off + u, row_off + v)]; and on the identity transform with the
    window (0, 0, 10, 10) the ring is (0,0), (10,0), (10,10), (0,10),
    (0,0). *)
Theorem create_tile_polygon_exact (src : dataset) (win : window) :
  create_tile_polygon src win =
    Polygon (map (affine_apply (window_transform src win))
               [(0, 0); (win_width win, 0); (win_width win, win_height win);
                (0, win_height win); (0, 0)])
  /\ (forall u v,
        fst (affine_apply (window_transform src win) (u, v))
          == fst (affine_apply (ds_transform src) (col_off win + u, row_off win + v))
        /\ snd (affine_apply (window_transform src win) (u, v))
          == snd (affine_apply (ds_transform src) (col_off win + u, row_off win + v)))
  /\ create_tile_polygon Inputs.raster10 Inputs.window10 =
       Polygon [(0, 0); (10, 0); (10, 10); (0, 10); (0, 0)].
Proof.
  split; [reflexivity |].
  split.
  - intros u v; destruct src as [w h [a b c d e f]];
      destruct win as [co ro ww wh]; simpl; split; ring.
  - reflexivity.
Qed.

(** C7.  On a geometry that is neither a Polygon nor a MultiPolygon,
    [get_geom_polygons] raises its "Unknown geometry type" [ValueError],
    while [get_polygon_bboxes] returns no boxes and prints one
    diagnostic line. *)
Theorem unknown_kind_asymmetry (g : G) (flatten : bool) :
  geom_type g <> "Polygon" ->
  geom_type g <> "MultiPolygon" ->
  get_geom_polygons g flatten = Err ValueError /\
  get_polygon_bboxes g = ([], ["Unknown geometry type"]).
Proof.
  intros Hp Hm; unfold get_geom_polygons, get_polygon_bboxes.
  destruct (String.eqb_spec (geom_type g) "Polygon"); [contradiction |].
  destruct (String.eqb_spec (geom_type g) "MultiPolygon"); [contradiction |].
  split; reflexivity.
Qed.

(** C2.  [normalize_polygon] returns a Polygon only for a Polygon
    argument: on every coordinate list and every string it raises
    (whatever [float] does with the fields), and in particular the
    paired list [[(0,0), (1,0), (1,1), (0,0)]] raises a [TypeError]. *)
Theorem normalize_polygon_non_polygon_inputs_fail (py_float : string -> result Q) :
  (forall l, is_ok (normalize_polygon (G := G) py_float (InList l)) = false) /\
  (forall s, is_ok (normalize_polygon (G := G) py_float (InStr s)) = false) /\
  normalize_polygon (G := G) py_float
    (InList [PPair 0 0; PPair 1 0; PPair 1 1; PPair 0 0]) = Err TypeError.
Proof.
  split; [| split].
  - intros [| e l]; simpl; [reflexivity |].
    destruct (is_tuple e); unfold normalize_list;
      [| destruct (List.length (flat_pairs (e :: l)))];
      try destruct (List.length l); try destruct forallb; reflexivity.
  - intros s; simpl.
    destruct (parse_polygon_str py_float s) as [pts | err]; simpl; [| reflexivity].
    unfold normalize_list; destruct (List.length pts); reflexivity.
  - reflexivity.
Qed.

End Geometry_props.

(** C6.  The flat-list branch of [normalize_polygon] pairs every element
    with its successor: [[0,0,1,0,1,1]] gives five overlapping pairs,
    not the three points (0,0), (1,0), (1,1); the odd list [[0,0,1]]
    gives (0,0) and (0,1); in general a list of length [n] gives [n - 1]
    pairs. *)
Theorem flat_pairs_sliding_window :
  flat_pairs [PNum 0; PNum 0; PNum 1; PNum 0; PNum 1; PNum 1] =
    [(PNum 0, PNum 0); (PNum 0, PNum 1); (PNum 1, PNum 0);
     (PNum 0, PNum 1); (PNum 1, PNum 1)] /\
  flat_pairs [PNum 0; PNum 0; PNum 1] = [(PNum 0, PNum 0); (PNum 0, PNum 1)] /\
  (forall l, List.length (flat_pairs l) = (List.length l - 1)%nat).
Proof.
  split; [reflexivity | split; [reflexivity |]].
  intro l; unfold flat_pairs; rewrite length_map, length_seq; reflexivity.
Qed.

(** C1.  On two records of one group with disjoint unit squares, every
    output row carries the whole two-part union (a MultiPolygon), not
    one of its parts; the union's two boxes give [2 x 2] rows, and since
    [row] is one dict mutated in place, all rows of a template show the
    last box.  With [group_by=None] pandas raises a [TypeError]. *)
Theorem flatten_polygons_rows_carry_union :
  let U := unary_union [Inputs.unit_a; Inputs.unit_b] in
  let last_box := VGeom (normalize (box_of_bounds (bounds Inputs.unit_b))) in
  let row_a : dict Grid.ggeom := [("id", VInt 1%Z); ("name", VStr "a"); ("bbox", last_box)] in
  let row_b : dict Grid.ggeom := [("id", VInt 1%Z); ("name", VStr "b"); ("bbox", last_box)] in
  flatten_polygons Inputs.two_records (Some ["id"]) =
    Ok [(row_a, U); (row_a, U); (row_b, U); (row_b, U)] /\
  geom_type U = "MultiPolygon" /\
  List.length (geoms U) = 2%nat /\
  (forall (G : Type) (SH : Shapely G) (gdf : frame G),
     @flatten_polygons G SH gdf None = Err TypeError).
Proof.
  split; [vm_compute; reflexivity |].
  split; [reflexivity |].
  split; [reflexivity |].
  intros; reflexivity.
Qed.

Section Flatten_props.
Context {G : Type} `{Shapely G}.

Lemma multi_rows_ok (group : frame G) (U : G) (i : nat) (parts : list G) (s : fp_state) :
  (i + List.length parts <= List.length group)%nat ->
  exists s', multi_rows group U i parts s = Ok s'.
Proof.
  revert i s; induction parts as [| p ps IH]; intros i s Hle; simpl; [eauto |].
  destruct (nth_error group i) as [[d g] |] eqn:E.
  - destruct (get_polygon_bboxes U) as [bbs msgs]; apply IH; simpl in Hle; lia.
  - apply nth_error_None in E; simpl in Hle; lia.
Qed.

Lemma multi_rows_err (group : frame G) (U : G) (i : nat) (parts : list G) (s : fp_state) :
  (i <= List.length group)%nat ->
  (List.length group < i + List.length parts)%nat ->
  multi_rows group U i parts s = Err IndexError.
Proof.
  revert i s; induction parts as [| p ps IH]; intros i s Hle Hlt; simpl in *; [lia |].
  destruct (nth_error group i) as [[d g] |] eqn:E; [| reflexivity].
  assert (i < List.length group)%nat by (apply nth_error_Some; rewrite E; discriminate).
  destruct (get_polygon_bboxes U) as [bbs msgs]; apply IH; lia.
Qed.

Lemma flatten_group_ok (group : frame G) (s : fp_state) :
  group <> [] -> ~ too_many_parts group -> exists s', flatten_group group s = Ok s'.
Proof.
  intros Hne Hok; unfold flatten_group.
  destruct (String.eqb_spec (geom_type (unary_union (map snd group))) "MultiPolygon") as [Hm | Hm].
  - apply multi_rows_ok; simpl.
    destruct (Nat.lt_ge_cases (List.length group) (List.length (geoms (group_union group))));
      [exfalso; apply Hok; split; assumption | assumption].
  - destruct group as [| [d g] grp]; [contradiction |]; simpl.
    destruct (get_polygon_bboxes (normalize (unary_union (g :: map snd grp)))); eauto.
Qed.

Lemma flatten_group_err (group : frame G) (s : fp_state) :
  too_many_parts group -> flatten_group group s = Err IndexError.
Proof.
  intros [Hm Hlt]; unfold flatten_group; unfold group_union in *; rewrite Hm; simpl.
  apply multi_rows_err; simpl; lia.
Qed.

Lemma too_many_parts_dec (group : frame G) : {too_many_parts group} + {~ too_many_parts group}.
Proof.
  unfold too_many_parts.
  destruct (string_dec (geom_type (group_union group)) "MultiPolygon");
    destruct (lt_dec (List.length group) (List.length (geoms (group_union group))));
    [left; split; assumption | right; tauto | right; tauto | right; tauto].
Qed.

Lemma flatten_groups_ok (groups : list (frame G)) (s : fp_state) :
  (forall g, In g groups -> g <> [] /\ ~ too_many_parts g) ->
  exists s', flatten_groups groups s = Ok s'.
Proof.
  revert s; induction groups as [| g gs IH]; intros s Hall; simpl; [eauto |].
  destruct (Hall g (or_introl eq_refl)) as [Hne Hok].
  destruct (flatten_group_ok g s Hne Hok) as [s1 E]; rewrite E; simpl.
  apply IH; intros g' Hin; apply Hall; right; exact Hin.
Qed.

Lemma flatten_groups_err (groups : list (frame G)) (s : fp_state) :
  (forall g, In g groups -> g <> []) ->
  (exists g, In g groups /\ too_many_parts g) ->
  flatten_groups groups s = Err IndexError.
Proof.
  revert s; induction groups as [| g gs IH]; intros s Hne [g' [Hin Hbad]]; [destruct Hin |].
  simpl; destruct (too_many_parts_dec g) as [Hg | Hg].
  - rewrite (flatten_group_err g s Hg); reflexivity.
  - destruct (flatten_group_ok g s (Hne g (or_introl eq_refl)) Hg) as [s1 E]; rewrite E; simpl.
    destruct Hin as [<- | Hin]; [contradiction |].
    apply IH; [intros g'' H''; apply Hne; right; exact H'' | exists g'; auto].
Qed.

Lemma add_to_group_nonempty (k : list (value G)) (r : dict G * G)
    (acc : list (list (value G) * frame G)) :
  (forall g, In g (map snd acc) -> g <> []) ->
  forall g, In g (map snd (add_to_group k r acc)) -> g <> [].
Proof.
  induction acc as [| [k' rs] acc IH]; simpl; intros Hacc g Hin.
  - destruct Hin as [<- | []]; discriminate.
  - destruct (values_eqb k k'); simpl in Hin.
    + destruct Hin as [<- | Hin]; [destruct rs; discriminate | apply Hacc; right; exact Hin].
    + destruct Hin as [<- | Hin]; [apply Hacc; left; reflexivity |].
      apply IH; [intros g' H'; apply Hacc; right; exact H' | exact Hin].
Qed.

Lemma groupby_nonempty (gdf : frame G) (keys : list string) (groups : list (frame G)) :
  groupby gdf (Some keys) = Ok groups -> forall g, In g groups -> g <> [].
Proof.
  unfold groupby; destruct keys as [| k ks]; [discriminate |].
  destruct (group_keys gdf (k :: ks)) as [kvs | e]; simpl; [| discriminate].
  intros E; injection E as <-.
  assert (Hgen : forall l acc,
            (forall g, In g (map snd acc) -> g <> []) ->
            forall g, In g (map snd (fold_left (fun acc kr => add_to_group (fst kr) (snd kr) acc) l acc)) ->
                      g <> []).
  { induction l as [| kr l IH]; simpl; intros acc Hacc; [exact Hacc |].
    apply IH; apply add_to_group_nonempty; exact Hacc. }
  apply Hgen; simpl; tauto.
Qed.

(** C10.  Once the rows are grouped, [flatten_polygons] fails with the
    out-of-bounds [IndexError] of [group.iloc[i]] exactly when some
    group's union is a MultiPolygon with more parts than the group has
    rows; when no group is like that it returns a frame. *)
Theorem flatten_polygons_index_precondition (gdf : frame G) (keys : list string)
    (groups : list (frame G)) :
  groupby gdf (Some keys) = Ok groups ->
  ((exists grp, In grp groups /\ too_many_parts grp) ->
     flatten_polygons gdf (Some keys) = Err IndexError) /\
  ((forall grp, In grp groups -> ~ too_many_parts grp) ->
     exists out, flatten_polygons gdf (Some keys) = Ok out).
Proof.
  intros Hg; pose proof (groupby_nonempty _ _ _ Hg) as Hne.
  unfold flatten_polygons; rewrite Hg; simpl; split.
  - intros Hbad; rewrite (flatten_groups_err groups fp_init Hne Hbad); reflexivity.
  - intros Hok.
    destruct (flatten_groups_ok groups fp_init) as [s E];
      [intros g Hin; split; [apply Hne | apply Hok]; exact Hin |].
    rewrite E; simpl; eauto.
Qed.

End Flatten_props.

Section Metadata_props.
Context {G : Type} `{Shapely G}.
Context (path_exists : string -> bool).
Context (open_image : string -> option (Z * Z)).
Context (parse_filename : dict G * G -> string).







End Metadata_props.

Section Tiles_props.
Context {G : Type} `{Shapely G}.
Context (raster_open : string -> option dataset).
Context (create_window : Z -> Z -> Z -> Z -> window).

Let footprint := tile_footprint create_window.

Lemma tile_rows_ok (gdf : frame G) (q : string) (rs : frame G) :
  tile_rows raster_open create_window gdf q = Ok rs ->
  exists src, raster_open q = Some src /\
    rs = match filter (fun r => intersects (snd r) (footprint src)) gdf with
         | [] => [(tile_row q src, empty_polygon)]
         | hits => map (fun r => (tile_row q src, intersection (snd r) (footprint src))) hits
         end.
Proof.
  unfold tile_rows; destruct (raster_open q) as [src |]; [| discriminate].
  intro E; exists src; split; [reflexivity |].
  destruct (filter _ gdf); injection E as <-; reflexivity.
Qed.

Lemma tiles_loop_covers (gdf : frame G) (paths : list string) (rows : frame G) :
  tiles_loop raster_open create_window gdf paths = Ok rows ->
  forall p, In p paths -> exists rs, tile_rows raster_open create_window gdf p = Ok rs /\
                                      forall x, In x rs -> In x rows.
Proof.
  revert rows; induction paths as [| q ps IH]; intros rows E p Hin; [destruct Hin |].
  simpl in E.
  destruct (tile_rows raster_open create_window gdf q) as [rs |] eqn:Eq; [| discriminate].
  simpl in E; destruct (tiles_loop raster_open create_window gdf ps) as [rest |] eqn:Er;
    [| discriminate].
  simpl in E; injection E as <-.
  destruct Hin as [<- | Hin].
  - exists rs; split; [exact Eq | intros x Hx; apply in_or_app; left; exact Hx].
  - destruct (IH rest eq_refl p Hin) as [rs' [E' Hsub]].
    exists rs'; split; [exact E' | intros x Hx; apply in_or_app; right; auto].
Qed.

Lemma tiles_loop_origin (gdf : frame G) (paths : list string) (rows : frame G) :
  tiles_loop raster_open create_window gdf paths = Ok rows ->
  forall x, In x rows -> exists q rs, In q paths /\
    tile_rows raster_open create_window gdf q = Ok rs /\ In x rs.
Proof.
  revert rows; induction paths as [| q ps IH]; intros rows E x Hx; simpl in E.
  - injection E as <-; destruct Hx.
  - destruct (tile_rows raster_open create_window gdf q) as [rs |] eqn:Eq; [| discriminate].
    simpl in E; destruct (tiles_loop raster_open create_window gdf ps) as [rest |] eqn:Er;
      [| discriminate].
    simpl in E; injection E as <-.
    apply in_app_or in Hx as [Hx | Hx].
    + exists q, rs; split; [left; reflexivity | auto].
    + destruct (IH rest eq_refl x Hx) as [q' [rs' [Hq [E' Hin]]]].
      exists q', rs'; split; [right; exact Hq | auto].
Qed.

Lemma explode_in (f : frame G) (x : dict G * G) (g : G) :
  In x f -> In g (get_parts (snd x)) -> In (fst x, g) (explode f).
Proof.
  intros Hx Hg; unfold explode; apply in_flat_map.
  exists x; split; [exact Hx | apply in_map; exact Hg].
Qed.

Lemma explode_origin (f : frame G) (y : dict G * G) :
  In y (explode f) -> exists x, In x f /\ fst y = fst x /\ In (snd y) (get_parts (snd x)).
Proof.
  unfold explode; intro Hy; apply in_flat_map in Hy as [x [Hx Hy]].
  apply in_map_iff in Hy as [g [<- Hg]].
  exists x; auto.
Qed.

Lemma seen_check (r : dict G * G) (seen : frame G) :
  existsb (fun s => if row_eq_dec r s then true else false) seen = true <-> In r seen.
Proof.
  rewrite existsb_exists; split.
  - intros [s [Hs E]]; destruct (row_eq_dec r s) as [-> |]; [exact Hs | discriminate].
  - intro Hin; exists r; split; [exact Hin |]; destruct (row_eq_dec r r); congruence.
Qed.

Lemma drop_duplicates_sub (seen f : frame G) (x : dict G * G) :
  In x (drop_duplicates_aux seen f) -> In x f.
Proof.
  revert seen; induction f as [| r f IH]; intros seen Hx; simpl in *; [exact Hx |].
  destruct (existsb _ seen).
  - right; exact (IH _ Hx).
  - destruct Hx as [<- | Hx]; [left; reflexivity | right; exact (IH _ Hx)].
Qed.

Lemma drop_duplicates_sup (seen f : frame G) (x : dict G * G) :
  In x f -> In x seen \/ In x (drop_duplicates_aux seen f).
Proof.
  revert seen; induction f as [| r f IH]; intros seen Hx; simpl in *; [destruct Hx |].
  destruct (existsb _ seen) eqn:E.
  - apply seen_check in E.
    destruct Hx as [<- | Hx]; [left; exact E | exact (IH _ Hx)].
  - destruct Hx as [<- | Hx]; [right; left; reflexivity |].
    destruct (IH (seen ++ [r]) Hx) as [Hs | Hd]; [| right; right; exact Hd].
    apply in_app_or in Hs as [Hs | [<- | []]]; [left; exact Hs | right; left; reflexivity].
Qed.

Lemma drop_duplicates_nodup (seen f : frame G) :
  NoDup (drop_duplicates_aux seen f) /\
  (forall x, In x (drop_duplicates_aux seen f) -> ~ In x seen).
Proof.
  revert seen; induction f as [| r f IH]; intro seen; simpl.
  - split; [constructor | intros x []].
  - destruct (existsb _ seen) eqn:E; [apply IH |].
    destruct (IH (seen ++ [r])) as [Hnd Hfresh].
    assert (Hr : ~ In r seen) by (intro Hin; apply seen_check in Hin; congruence).
    split.
    + constructor; [| exact Hnd].
      intro Hin; apply (Hfresh r Hin); apply in_or_app; right; left; reflexivity.
    + intros x [<- | Hx]; [exact Hr |].
      intro Hs; apply (Hfresh x Hx); apply in_or_app; left; exact Hs.
Qed.

Lemma filter_unique {A} (P : A -> bool) (l : list A) (x : A) :
  NoDup l -> In x l -> P x = true -> (forall y, In y l -> P y = true -> y = x) ->
  filter P l = [x].
Proof.
  induction l as [| a l IH]; intros Hnd Hx Px Huniq; [destruct Hx |].
  inversion Hnd as [| a' l' Hnotin Hnd' ]; subst.
  simpl; destruct (P a) eqn:Pa.
  - assert (a = x) as <- by (apply Huniq; [left |]; auto).
    f_equal.
    assert (Hnone : forall y, In y l -> P y = false).
    { intros y Hy; destruct (P y) eqn:Py; [| reflexivity].
      exfalso; apply Hnotin; rewrite <- (Huniq y (or_intror Hy) Py); exact Hy. }
    clear - Hnone; induction l as [| b l IHl]; simpl; [reflexivity |].
    rewrite (Hnone b (or_introl eq_refl)); apply IHl; intros y Hy; apply Hnone; right; exact Hy.
  - destruct Hx as [<- | Hx]; [congruence |].
    apply IH; auto.
    intros y Hy; apply Huniq; right; exact Hy.
Qed.

Lemma row_path_tile_row (p q : string) (src : dataset) (y : dict G * G) :
  fst y = tile_row q src -> row_path_is p y = String.eqb q p.
Proof.
  destruct y as [d g]; simpl; intros ->; reflexivity.
Qed.

Lemma filter_all_false {A} (P : A -> bool) (l : list A) :
  (forall y, In y l -> P y = false) -> filter P l = [].
Proof.
  induction l as [| a l IH]; intro Hall; simpl; [reflexivity |].
  rewrite (Hall a (or_introl eq_refl)); apply IH; intros y Hy; apply Hall; right; exact Hy.
Qed.

(** C4.  For every tile [p] that survives the filename pre-filter, the
    output of [map_geometry_to_geotiffs] has a row whose ["path"] is
    [p]; when no record intersects [p]'s footprint, the rows with path
    [p] are exactly one, the tile's row with the [Polygon()]
    placeholder.  Assumed of the geometry engine: [explode] keeps
    [Polygon()] as its own single part, and a record geometry that
    intersects a footprint clips to a non-empty list of parts. *)
Theorem mapper_completeness (gdf : frame G) (tif_files stems : list string) (out : frame G) :
  clips_nonempty raster_open create_window gdf tif_files = true ->
  get_parts empty_polygon = [empty_polygon] ->
  orig_stems gdf = Ok stems ->
  map_geometry_to_geotiffs raster_open create_window gdf tif_files = Ok out ->
  forall p, In p (image_paths stems tif_files) ->
    (exists r, In r out /\ row_path_is p r = true) /\
    (forall src, raster_open p = Some src ->
       (forall r, In r gdf -> intersects (snd r) (footprint src) = false) ->
       filter (row_path_is p) out = [(tile_row p src, empty_polygon)]).
Proof.
  intros Hclip Hempty Hstems Hmap p Hp.
  unfold map_geometry_to_geotiffs in Hmap; rewrite Hstems in Hmap; simpl in Hmap.
  destruct (tiles_loop raster_open create_window gdf (image_paths stems tif_files))
    as [rows |] eqn:Hrows; [| discriminate].
  simpl in Hmap; injection Hmap as <-.
  assert (Hout : forall y, In y (explode rows) -> In y (drop_duplicates (explode rows))).
  { intros y Hy; destruct (drop_duplicates_sup [] _ y Hy) as [[] | Hd]; exact Hd. }
  destruct (tiles_loop_covers _ _ _ Hrows p Hp) as [rs [Ers Hsub]].
  destruct (tile_rows_ok _ _ _ Ers) as [src [Hsrc Hrs]].
  split.
  - assert (Hfile : In p tif_files) by (apply filter_In in Hp; tauto).
    destruct (filter (fun r => intersects (snd r) (footprint src)) gdf) as [| r hits] eqn:Hf.
    + exists (tile_row p src, empty_polygon); split.
      * apply Hout; apply (explode_in rows (tile_row p src, empty_polygon) empty_polygon);
          [apply Hsub; rewrite Hrs; left; reflexivity | simpl; rewrite Hempty; left; reflexivity].
      * erewrite (row_path_tile_row p p src); [apply String.eqb_refl | reflexivity].
    + assert (Hr : In r gdf /\ intersects (snd r) (footprint src) = true).
      { apply (filter_In (fun r => intersects (snd r) (footprint src))); rewrite Hf; left; reflexivity. }
      unfold clips_nonempty in Hclip; rewrite forallb_forall in Hclip.
      specialize (Hclip p Hfile); rewrite Hsrc, forallb_forall in Hclip.
      specialize (Hclip r (proj1 Hr)); fold footprint in Hclip.
      rewrite (proj2 Hr) in Hclip; simpl in Hclip.
      destruct (get_parts (intersection (snd r) (footprint src))) as [| g gs] eqn:Eg;
        [discriminate |].
      exists (tile_row p src, g); split.
      * apply Hout; apply (explode_in rows (tile_row p src, intersection (snd r) (footprint src)) g);
          [apply Hsub; rewrite Hrs; left; reflexivity | simpl; rewrite Eg; left; reflexivity].
      * erewrite (row_path_tile_row p p src); [apply String.eqb_refl | reflexivity].
  - intros src' Hsrc' Hnone; rewrite Hsrc in Hsrc'; injection Hsrc' as <-.
    assert (Hf : filter (fun r => intersects (snd r) (footprint src)) gdf = [])
      by (apply filter_all_false; exact Hnone).
    rewrite Hf in Hrs.
    apply filter_unique.
    + apply drop_duplicates_nodup.
    + apply Hout; apply (explode_in rows (tile_row p src, empty_polygon) empty_polygon);
        [apply Hsub; rewrite Hrs; left; reflexivity | simpl; rewrite Hempty; left; reflexivity].
    + erewrite (row_path_tile_row p p src); [apply String.eqb_refl | reflexivity].
    + intros y Hy Py.
      apply drop_duplicates_sub in Hy.
      destruct (explode_origin _ _ Hy) as [x [Hx [Hfst Hpart]]].
      destruct (tiles_loop_origin _ _ _ Hrows x Hx) as [q [rs' [Hq [Ers' Hxrs]]]].
      destruct (tile_rows_ok _ _ _ Ers') as [srcq [Hsrcq Hrs']].
      assert (Hxrow : fst x = tile_row q srcq).
      { rewrite Hrs' in Hxrs.
        destruct (filter (fun r => intersects (snd r) (footprint srcq)) gdf) as [| h t].
        - destruct Hxrs as [<- | []]; reflexivity.
        - apply in_map_iff in Hxrs as [r' [<- _]]; reflexivity. }
      rewrite (row_path_tile_row p q srcq y (eq_trans Hfst Hxrow)) in Py.
      apply String.eqb_eq in Py; subst q.
      rewrite Ers in Ers'; injection Ers' as <-.
      rewrite Hrs in Hxrs; destruct Hxrs as [<- | []].
      simpl in Hpart; rewrite Hempty in Hpart; destruct Hpart as [Hg | []].
      destruct y as [dy gy]; simpl in *; subst; reflexivity.
Qed.

End Tiles_props.

(* ================================================================== *)
(** * Instances of the hypotheses on the grid engine *)

(** C3 at the two overlapping squares: [coverage_union] raises. *)
Lemma flatten_two_parts_never_one_witness :
  coverage_union (normalize (Grid.GPolygon (Grid.cells_of Inputs.square_a)))
                 (normalize (Grid.GPolygon (Grid.cells_of Inputs.square_b)))
    = Err GEOSException /\
  area (unary_union [Inputs.square_a; Inputs.square_b]) == 7 /\
  forall p, get_geom_polygons Inputs.two_squares true <> Ok [p].
Proof.
  split; [vm_compute; reflexivity |].
  split; [vm_compute; reflexivity |].
  apply (flatten_two_parts_never_one Inputs.two_squares
           (Grid.GPolygon (Grid.cells_of Inputs.square_a))
           (Grid.GPolygon (Grid.cells_of Inputs.square_b)));
    vm_compute; [reflexivity | reflexivity | exact I].
Defined.

(** C7 at a point. *)
Lemma unknown_kind_asymmetry_witness :
  get_geom_polygons (Grid.GPoint 0 0) true = Err ValueError /\
  get_polygon_bboxes (Grid.GPoint 0 0) = ([], ["Unknown geometry type"]).
Proof.
  apply (unknown_kind_asymmetry (Grid.GPoint 0 0) true); vm_compute; discriminate.
Defined.

(** C10 on one record whose geometry has two parts (IndexError), and on
    two records whose union has two parts (a frame). *)
Lemma flatten_polygons_index_precondition_witness :
  flatten_polygons Inputs.one_multi_record (Some ["id"]) = Err IndexError /\
  exists out, flatten_polygons Inputs.two_records (Some ["id"]) = Ok out.
Proof.
  split.
  - apply (proj1 (flatten_polygons_index_precondition Inputs.one_multi_record ["id"]
                    [Inputs.one_multi_record] ltac:(vm_compute; reflexivity))).
    exists Inputs.one_multi_record; split; [left; reflexivity |].
    split; [vm_compute; reflexivity | vm_compute; lia].
  - apply (proj2 (flatten_polygons_index_precondition Inputs.two_records ["id"]
                    [Inputs.two_records] ltac:(vm_compute; reflexivity))).
    intros grp [<- | []] [_ Hlt]; vm_compute in Hlt; lia.
Defined.


(** C4 on two tiles whose names share the stem ["tile"] of the
    annotation's file: the second tile has no intersecting record and
    gets exactly its [Polygon()] row. *)
Lemma mapper_completeness_witness :
  (exists r, In r Inputs.tiles_out /\ row_path_is "/d/tile_b.tif" r = true) /\
  (forall src, Inputs.tiles_open "/d/tile_b.tif" = Some src ->
     (forall r, In r Inputs.annotations ->
        intersects (snd r) (tile_footprint Inputs.window_of src) = false) ->
     filter (row_path_is "/d/tile_b.tif") Inputs.tiles_out
       = [(tile_row "/d/tile_b.tif" src, empty_polygon)]).
Proof.
  apply (mapper_completeness Inputs.tiles_open Inputs.window_of Inputs.annotations
           Inputs.tile_files ["tile"] Inputs.tiles_out);
    vm_compute; solve [reflexivity | right; left; reflexivity].
Defined.

(* ================================================================== *)
(** * Further properties of the code *)

Section Polygons_extra.
Context {G : Type} `{Shapely G} `{ShapelyExterior G}.

(** [get_polygon_points], [get_geom_polygons] (without flattening) and
    [get_polygon_bboxes] accept the same geometry kinds: the first raises
    exactly when the second raises, and exactly when the third returns
    no box with its diagnostic; the only error is [ValueError].  A
    Polygon gives its exterior ring, itself normalised and one box; a
    MultiPolygon gives one ring, one normalised polygon and one box per
    part. *)
Theorem polygon_points_agree (g : G) :
  (get_polygon_points g = Err ValueError <-> get_geom_polygons g false = Err ValueError) /\
  (get_polygon_points g = Err ValueError <-> get_polygon_bboxes g = ([], ["Unknown geometry type"])) /\
  (forall e, get_polygon_points g = Err e -> e = ValueError) /\
  (geom_type g = "Polygon" ->
     get_polygon_points g = Ok (RingPoints (exterior_coords g)) /\
     get_geom_polygons g false = Ok [normalize g] /\
     List.length (fst (get_polygon_bboxes g)) = 1%nat) /\
  (geom_type g = "MultiPolygon" ->
     get_polygon_points g = Ok (PartRings (map exterior_coords (geoms g))) /\
     get_geom_polygons g false = Ok (map normalize (geoms g)) /\
     List.length (fst (get_polygon_bboxes g)) = List.length (geoms g)).
Proof.
  unfold get_polygon_points, get_geom_polygons, get_polygon_bboxes.
  destruct (String.eqb_spec (geom_type g) "Polygon") as [Hp | Hp];
    [| destruct (String.eqb_spec (geom_type g) "MultiPolygon") as [Hm | Hm]]; simpl;
    repeat split; try discriminate; try congruence;
    try (intros e E; first [discriminate | injection E as <-; reflexivity]);
    apply length_map.
Qed.

Lemma merge_into_length (polygon : G) (fl fl' : list G) :
  merge_into polygon fl = Ok (Some fl') -> List.length fl' = List.length fl.
Proof.
  revert fl'; induction fl as [| flat rest IH]; intros fl' E; simpl in E; [discriminate |].
  destruct (coverage_union flat polygon) as [u |]; simpl in E; [| discriminate].
  destruct (py_geoms u) as [parts |]; simpl in E; [| discriminate].
  destruct (first_merge flat polygon parts) as [poly |].
  - injection E as <-; reflexivity.
  - destruct (merge_into polygon rest) as [[r |] |] eqn:Er; simpl in E; try discriminate.
    injection E as <-; simpl; f_equal; apply IH; reflexivity.
Qed.

Lemma flatten_loop_length (fl cands ps : list G) :
  flatten_loop fl cands = Ok ps ->
  (List.length ps <= List.length fl + List.length cands)%nat /\
  (List.length fl <= List.length ps)%nat /\
  (0 < List.length fl + List.length cands -> 0 < List.length ps)%nat.
Proof.
  revert fl; induction cands as [| p cs IH]; intros fl E; simpl in E.
  - injection E as <-; simpl; lia.
  - destruct fl as [| f fs].
    + destruct (IH [p] E) as [A [B C]]; simpl in *; lia.
    + destruct (merge_into p (f :: fs)) as [[fl' |] |] eqn:Em; simpl in E; try discriminate.
      * pose proof (merge_into_length _ _ _ Em) as Hl.
        destruct (IH fl' E) as [A [B C]]; simpl in *; lia.
      * destruct (IH _ E) as [A [B C]]; simpl in *; rewrite ?length_app in *; simpl in *; lia.
Qed.

(** Flattening a MultiPolygon of [n] parts gives at most [n] polygons,
    and at least one when [n > 0]. *)
Theorem flatten_part_count (g : G) (ps : list G) :
  geom_type g = "MultiPolygon" ->
  get_geom_polygons g true = Ok ps ->
  (List.length ps <= List.length (geoms g))%nat /\
  (geoms g <> [] -> ps <> []).
Proof.
  intros Hm E; unfold get_geom_polygons in E; rewrite Hm in E; simpl in E.
  destruct (flatten_loop_length _ _ _ E) as [A [_ C]]; simpl in *.
  rewrite length_map in *; split; [exact A |].
  intros Hne ->; destruct (geoms g); [congruence | simpl in C; lia].
Qed.

Lemma merge_into_none (polygon : G) (fl : list G) :
  forallb (fun flat => no_merge flat polygon) fl = true -> merge_into polygon fl = Ok None.
Proof.
  induction fl as [| flat rest IH]; intro Hall; simpl; [reflexivity |].
  simpl in Hall; apply andb_prop in Hall as [Hf Hr].
  unfold no_merge in Hf; destruct (coverage_union flat polygon) as [u |]; [| discriminate].
  apply andb_prop in Hf as [Hg Hp]; simpl; unfold py_geoms; rewrite Hg; simpl.
  rewrite (first_merge_none _ _ _ Hp), (IH Hr); reflexivity.
Qed.

Lemma kept_apart_app (l1 l2 : list G) :
  kept_apart (l1 ++ l2) = true ->
  forall x y, In x l1 -> In y l2 -> no_merge x y = true.
Proof.
  induction l1 as [| a l1 IH]; intros Hk x y Hx Hy; [destruct Hx |].
  simpl in Hk; apply andb_prop in Hk as [Ha Hk].
  destruct Hx as [<- | Hx].
  - rewrite forallb_forall in Ha; apply Ha, in_or_app; right; exact Hy.
  - exact (IH Hk x y Hx Hy).
Qed.

Lemma flatten_loop_apart (fl cands : list G) :
  fl <> [] -> kept_apart (fl ++ cands) = true -> flatten_loop fl cands = Ok (fl ++ cands).
Proof.
  revert fl; induction cands as [| p cs IH]; intros fl Hne Hk; simpl.
  - rewrite app_nil_r; reflexivity.
  - destruct fl as [| f fs]; [congruence |].
    rewrite merge_into_none; simpl.
    + change (f :: fs ++ [p]) with ((f :: fs) ++ [p]).
      replace (f :: fs ++ p :: cs) with (((f :: fs) ++ [p]) ++ cs)
        by (rewrite <- app_assoc; reflexivity).
      apply IH; [discriminate |].
      rewrite <- app_assoc; exact Hk.
    + apply (proj2 (forallb_forall (fun flat => no_merge flat p) (f :: fs))); intros x Hx.
      apply (kept_apart_app (f :: fs) (p :: cs) Hk); [exact Hx | left; reflexivity].
Qed.

(** When no two normalised parts of a MultiPolygon are merged by
    [coverage_union], flattening returns the normalised parts unchanged:
    the same result as [flatten=False]. *)
Theorem flatten_disjoint_parts_unchanged (g : G) :
  geom_type g = "MultiPolygon" ->
  kept_apart (map normalize (geoms g)) = true ->
  get_geom_polygons g true = get_geom_polygons g false.
Proof.
  intros Hm Hk; unfold get_geom_polygons; rewrite Hm; simpl.
  destruct (map normalize (geoms g)) as [| a l] eqn:E; simpl; [reflexivity |].
  apply (flatten_loop_apart [a] l); [discriminate | exact Hk].
Qed.
End Polygons_extra.

Section Parse_extra.

Lemma strip_loop_spec (fuel : nat) (s : list ascii) (size start end_ P Q : Z) :
  size = Z.of_nat (List.length s) ->
  (0 <= start <= P)%Z -> (P <= Q <= end_)%Z -> (end_ < size)%Z ->
  digit_at s P = true -> digit_at s Q = true ->
  (forall i, (start <= i < P)%Z -> digit_at s i = false) ->
  (forall j, (Q < j <= end_)%Z -> digit_at s j = false) ->
  (P - start + (end_ - Q) <= Z.of_nat fuel)%Z ->
  strip_loop fuel s size start end_ = (P, Q).
Proof.
  revert start end_; induction fuel as [| fuel IH]; intros start end_ Hsz H1 H2 H3 HP HQ Hl Hr Hf.
  - simpl; f_equal; lia.
  - simpl.
    destruct (Z.eq_dec start P) as [-> | Hs]; destruct (Z.eq_dec end_ Q) as [-> | He].
    + rewrite HP, HQ; simpl.
      destruct ((P <? Q)%Z && (P <? size)%Z && (0 <=? Q)%Z); reflexivity.
    + assert (Hd : digit_at s end_ = false) by (apply Hr; lia).
      rewrite HP, Hd; simpl.
      replace ((P <? end_)%Z && (P <? size)%Z && (0 <=? end_)%Z) with true
        by (symmetry; repeat rewrite andb_true_iff; repeat split; apply Z.ltb_lt || apply Z.leb_le; lia).
      simpl; apply IH; auto; try lia.
      intros j Hj; apply Hr; lia.
    + assert (Hd : digit_at s start = false) by (apply Hl; lia).
      rewrite Hd, HQ; simpl.
      replace ((start <? Q)%Z && (start <? size)%Z && (0 <=? Q)%Z) with true
        by (symmetry; repeat rewrite andb_true_iff; repeat split; apply Z.ltb_lt || apply Z.leb_le; lia).
      simpl; apply IH; auto; try lia.
      intros i Hi; apply Hl; lia.
    + assert (Hd : digit_at s start = false) by (apply Hl; lia).
      assert (Hd' : digit_at s end_ = false) by (apply Hr; lia).
      rewrite Hd, Hd'; simpl.
      replace ((start <? end_)%Z && (start <? size)%Z && (0 <=? end_)%Z) with true
        by (symmetry; repeat rewrite andb_true_iff; repeat split; apply Z.ltb_lt || apply Z.leb_le; lia).
      simpl; apply IH; auto; try lia.
      * intros i Hi; apply Hl; lia.
      * intros j Hj; apply Hr; lia.
Qed.

Lemma isdigit_range (c : ascii) :
  isdigit c = true -> (48 <= nat_of_ascii c <= 57)%nat.
Proof.
  unfold isdigit; intro Hd; apply andb_prop in Hd as [A B].
  apply Nat.leb_le in A; apply Nat.leb_le in B; lia.
Qed.

Lemma digit_neq (c d : ascii) :
  isdigit c = true -> isdigit d = false -> c <> d.
Proof. intros Hc Hd ->; congruence. Qed.

Lemma digit_not_space (c : ascii) : isdigit c = true -> is_space c = false.
Proof.
  destruct c as [[] [] [] [] [] [] [] []]; vm_compute; congruence.
Qed.

Lemma split_comma_cons (c : ascii) (s cur : list ascii) :
  c <> ","%char -> split_comma_space (c :: s) cur = split_comma_space s (c :: cur).
Proof.
  intro Hc; destruct c as [[] [] [] [] [] [] [] []]; try reflexivity; congruence.
Qed.

Lemma drop_space_zero_cons (c : ascii) (s : list ascii) :
  c <> " "%char -> drop_space_zero (c :: s) = c :: drop_space_zero s.
Proof.
  intro Hc; destruct c as [[] [] [] [] [] [] [] []]; try reflexivity; congruence.
Qed.


Lemma drop_space_zero_digits (l rest : list ascii) :
  forallb isdigit l = true -> drop_space_zero (l ++ rest) = l ++ drop_space_zero rest.
Proof.
  induction l as [| c l IH]; intro Hl; [reflexivity |].
  rewrite <- !app_comm_cons.
  simpl in Hl; apply andb_prop in Hl as [Hc Hl].
  rewrite drop_space_zero_cons; [rewrite IH; auto |].
  apply (digit_neq c " "); [exact Hc | reflexivity].
Qed.

Lemma split_comma_app (t rest cur : list ascii) :
  no_comma t = true -> split_comma_space (t ++ rest) cur = split_comma_space rest (rev t ++ cur).
Proof.
  revert cur; induction t as [| c t IH]; intros cur Ht; [reflexivity |].
  rewrite <- app_comm_cons.
  simpl in Ht; apply andb_prop in Ht as [Hc Ht].
  rewrite split_comma_cons.
  - rewrite IH by exact Ht; simpl; rewrite <- app_assoc; reflexivity.
  - intro E; subst; discriminate.
Qed.

Lemma split_join (ts : list (list ascii)) :
  ts <> [] -> forallb no_comma ts = true -> split_comma_space (join_comma_space ts) [] = ts.
Proof.
  induction ts as [| t ts IH]; intros Hne Hall; [congruence |].
  simpl in Hall; apply andb_prop in Hall as [Ht Hts].
  destruct ts as [| t' ts].
  - simpl; rewrite <- (app_nil_r t) at 1; rewrite split_comma_app by exact Ht.
    simpl; rewrite app_nil_r, rev_involutive; reflexivity.
  - change (join_comma_space (t :: t' :: ts)) with (t ++ "," :: " " :: join_comma_space (t' :: ts))%char.
    rewrite split_comma_app by exact Ht.
    change (split_comma_space ("," :: " " :: join_comma_space (t' :: ts))%char (rev t ++ []))
      with (rev (rev t ++ []) :: split_comma_space (join_comma_space (t' :: ts)) []).
    rewrite app_nil_r, rev_involutive, IH; [reflexivity | discriminate | exact Hts].
Qed.

Lemma split_ws_app (x rest cur : list ascii) :
  forallb isdigit x = true -> split_ws (x ++ rest) cur = split_ws rest (rev x ++ cur).
Proof.
  revert cur; induction x as [| c x IH]; intros cur Hx; simpl; [reflexivity |].
  simpl in Hx; apply andb_prop in Hx as [Hc Hx].
  rewrite (digit_not_space c Hc), IH by exact Hx; rewrite <- app_assoc; reflexivity.
Qed.


Lemma split_ws_nil (cur : list ascii) : cur <> [] -> split_ws [] cur = [rev cur].
Proof. destruct cur; [congruence | reflexivity]. Qed.

Lemma rev_nonempty {A} (l : list A) : l <> [] -> rev l <> [].
Proof. intros Hl E; apply Hl; rewrite <- (rev_involutive l), E; reflexivity. Qed.


Lemma join_prefix (t : list ascii) (ts : list (list ascii)) :
  exists r, join_comma_space (t :: ts) = t ++ r.
Proof.
  destruct ts as [| t' ts]; [exists []; rewrite app_nil_r; reflexivity |].
  eexists; reflexivity.
Qed.

Lemma join_suffix (ts : list (list ascii)) :
  ts <> [] -> exists r, join_comma_space ts = r ++ last ts [].
Proof.
  induction ts as [| t ts IH]; intro Hne; [congruence |].
  destruct ts as [| t' ts].
  - exists []; reflexivity.
  - destruct IH as [r Hr]; [discriminate |].
    exists (t ++ "," :: " " :: r)%char.
    change (join_comma_space (t :: t' :: ts)) with (t ++ "," :: " " :: join_comma_space (t' :: ts))%char.
    rewrite Hr, <- app_assoc; reflexivity.
Qed.

Lemma ends_digit_split (t : list ascii) :
  ends_digit t = true -> exists l c, t = l ++ [c] /\ isdigit c = true.
Proof.
  unfold ends_digit; destruct (rev t) as [| c r] eqn:E; [discriminate |].
  intro Hc; exists (rev r), c; split; [| exact Hc].
  rewrite <- (rev_involutive t), E; reflexivity.
Qed.

Lemma last_in {A} (l : list A) (d : A) : l <> [] -> In (last l d) l.
Proof.
  induction l as [| a l IH]; intro Hne; [congruence |].
  destruct l as [| b l]; [left; reflexivity | right; apply IH; discriminate].
Qed.

Lemma digit_at_nth (s : list ascii) (n : nat) (c : ascii) :
  nth_error s n = Some c -> digit_at s (Z.of_nat n) = isdigit c.
Proof. intro E; unfold digit_at; rewrite Nat2Z.id, E; reflexivity. Qed.

Lemma no_digit_nth (l : list ascii) (n : nat) (c : ascii) :
  no_digit l = true -> nth_error l n = Some c -> isdigit c = false.
Proof.
  intros Hl E; unfold no_digit in Hl; rewrite forallb_forall in Hl.
  apply nth_error_In in E; apply Hl in E; destruct (isdigit c); [discriminate | reflexivity].
Qed.

Lemma parse_structure (py_float : string -> result Q) (pre suf : list ascii)
    (ts : list (list ascii)) :
  no_digit pre = true -> no_digit suf = true -> ts <> [] ->
  forallb (fun t => starts_digit t && ends_digit t && no_comma t) ts = true ->
  parse_polygon_str py_float (string_of_list_ascii (pre ++ join_comma_space ts ++ suf))
    = mapM (parse_point py_float) ts.
Proof.
  intros Hpre Hsuf Hne Hts.
  assert (Hts' := Hts); rewrite forallb_forall in Hts'.
  assert (Hnc : forallb no_comma ts = true).
  { apply forallb_forall; intros t Ht; specialize (Hts' t Ht).
    apply andb_prop in Hts' as [_ Hc]; exact Hc. }
  (* the first and the last character of the body are digits *)
  assert (F1 : exists c0 r0, join_comma_space ts = c0 :: r0 /\ isdigit c0 = true).
  { destruct ts as [| t0 ts0]; [congruence |].
    pose proof (Hts' t0 (or_introl eq_refl)) as Ht0.
    apply andb_prop in Ht0 as [Ht0 _]; apply andb_prop in Ht0 as [Hs0 _].
    destruct t0 as [| c0 t0']; [discriminate |].
    destruct (join_prefix (c0 :: t0') ts0) as [r Hr].
    exists c0, (t0' ++ r); split; [rewrite Hr; reflexivity | exact Hs0]. }
  assert (F2 : exists l1 c1, join_comma_space ts = l1 ++ [c1] /\ isdigit c1 = true).
  { destruct (join_suffix ts Hne) as [r Hr].
    pose proof (Hts' _ (last_in ts [] Hne)) as Hl.
    apply andb_prop in Hl as [Hl _]; apply andb_prop in Hl as [_ He].
    destruct (ends_digit_split _ He) as [l [c1 [El Hc1]]].
    exists (r ++ l), c1; split; [rewrite Hr, El, <- app_assoc; reflexivity | exact Hc1]. }
  destruct F1 as [c0 [r0 [E1 D1]]]; destruct F2 as [l1 [c1 [E2 D2]]].
  set (body := join_comma_space ts) in *.
  set (s := pre ++ body ++ suf).
  unfold parse_polygon_str; rewrite list_ascii_of_string_of_list_ascii; fold s.
  assert (Hb : List.length body = S (List.length l1))
    by (rewrite E2, length_app; simpl; lia).
  assert (Hs : List.length s = (List.length pre + List.length body + List.length suf)%nat)
    by (unfold s; rewrite !length_app; lia).
  set (a := List.length pre) in *.
  rewrite (strip_loop_spec (List.length s) s (Z.of_nat (List.length s)) 0
             (Z.of_nat (List.length s) - 1) (Z.of_nat a) (Z.of_nat a + Z.of_nat (List.length body) - 1));
    try lia.
  - replace ((Z.of_nat a <? Z.of_nat (List.length s))%Z
             && (0 <=? Z.of_nat a + Z.of_nat (List.length body) - 1)%Z) with true
      by (symmetry; apply andb_true_iff; split; [apply Z.ltb_lt | apply Z.leb_le]; lia).
    replace (Z.to_nat (Z.of_nat a + Z.of_nat (List.length body) - 1 + 1))
      with (List.length (pre ++ body) + 0)%nat by (rewrite length_app; lia).
    unfold s; rewrite app_assoc, firstn_app_2, app_nil_r, Nat2Z.id.
    rewrite skipn_app; unfold a; rewrite skipn_all, Nat.sub_diag; simpl.
    unfold body; rewrite split_join by assumption; reflexivity.
  - rewrite (digit_at_nth s a c0); [exact D1 |].
    unfold s; rewrite nth_error_app2 by lia; rewrite Nat.sub_diag, E1; reflexivity.
  - replace (Z.of_nat a + Z.of_nat (List.length body) - 1)%Z with (Z.of_nat (a + List.length l1))
      by (rewrite Hb; lia).
    rewrite (digit_at_nth s (a + List.length l1) c1); [exact D2 |].
    unfold s; rewrite nth_error_app2 by lia.
    replace (a + List.length l1 - List.length pre)%nat with (List.length l1) by (unfold a; lia).
    rewrite E2, <- app_assoc, nth_error_app2, Nat.sub_diag by lia; reflexivity.
  - intros i Hi.
    destruct (nth_error pre (Z.to_nat i)) as [c |] eqn:Ec.
    + replace i with (Z.of_nat (Z.to_nat i)) by lia.
      rewrite (digit_at_nth s _ c); [exact (no_digit_nth pre _ c Hpre Ec) |].
      unfold s; rewrite nth_error_app1; [exact Ec | lia].
    + apply nth_error_None in Ec; unfold a in Hi; lia.
  - intros j Hj.
    set (n := (Z.to_nat j - List.length pre - List.length body)%nat).
    destruct (nth_error suf n) as [c |] eqn:Ec.
    + replace j with (Z.of_nat (Z.to_nat j)) by lia.
      rewrite (digit_at_nth s _ c); [exact (no_digit_nth suf _ c Hsuf Ec) |].
      unfold s; rewrite nth_error_app2 by lia; rewrite nth_error_app2 by lia.
      rewrite <- Ec; f_equal; unfold n; lia.
    + apply nth_error_None in Ec; unfold n in Ec; lia.
Qed.

Lemma digit_no_comma (c : ascii) : isdigit c = true -> negb (Ascii.eqb c ",") = true.
Proof. destruct c as [[] [] [] [] [] [] [] []]; vm_compute; congruence. Qed.

Lemma digit_not_paren (c : ascii) :
  isdigit c = true -> negb (Ascii.eqb "(" c) = true /\ negb (Ascii.eqb ")" c) = true.
Proof. destruct c as [[] [] [] [] [] [] [] []]; vm_compute; intuition congruence. Qed.

Lemma digit_run_forall (l : list ascii) : digit_run l = true -> forallb isdigit l = true.
Proof. destruct l; [discriminate | exact (fun H => H)]. Qed.

Lemma ends_digit_app (l r : list ascii) : ends_digit r = true -> ends_digit (l ++ r) = true.
Proof.
  unfold ends_digit; rewrite rev_app_distr; destruct (rev r); [discriminate | exact (fun H => H)].
Qed.

Lemma ends_digit_run (l : list ascii) : digit_run l = true -> ends_digit l = true.
Proof.
  intro Hl; pose proof (digit_run_forall l Hl) as Hf.
  unfold ends_digit; destruct (rev l) as [| c r] eqn:E.
  - destruct l; [discriminate |]; simpl in E; destruct (rev l); discriminate.
  - rewrite forallb_forall in Hf; apply Hf; apply in_rev; rewrite E; left; reflexivity.
Qed.

Lemma no_comma_digits (l : list ascii) : forallb isdigit l = true -> no_comma l = true.
Proof.
  intro Hl; unfold no_comma; rewrite forallb_forall in *; intros c Hc; apply digit_no_comma; auto.
Qed.

Lemma no_comma_app (l r : list ascii) : no_comma (l ++ r) = no_comma l && no_comma r.
Proof. unfold no_comma; apply forallb_app. Qed.

Lemma starts_digit_app (l r : list ascii) :
  digit_run l = true -> starts_digit (l ++ r) = true.
Proof. destruct l as [| c l]; [discriminate |]; simpl; intro H; apply andb_prop in H; tauto. Qed.

Lemma drop_char_absent (c : ascii) (l : list ascii) :
  forallb (fun d => negb (Ascii.eqb c d)) l = true -> drop_char c l = l.
Proof.
  intro Hl; induction l as [| d l IH]; [reflexivity |].
  simpl in Hl; apply andb_prop in Hl as [Hd Hl].
  unfold drop_char in *; cbn [filter]; rewrite Hd; f_equal; apply IH; exact Hl.
Qed.

Lemma drop_parens_digits_space (l : list ascii) :
  forallb (fun c => isdigit c || Ascii.eqb c " ") l = true ->
  drop_char ")" (drop_char "(" l) = l.
Proof.
  intro Hl.
  assert (P : forall c, In c l -> negb (Ascii.eqb "(" c) = true /\ negb (Ascii.eqb ")" c) = true).
  { intros c Hc; rewrite forallb_forall in Hl; specialize (Hl c Hc).
    apply orb_prop in Hl as [Hl | Hl]; [apply digit_not_paren; exact Hl |].
    apply Ascii.eqb_eq in Hl; subst; split; reflexivity. }
  rewrite (drop_char_absent "(" l), (drop_char_absent ")" l); [reflexivity | |];
    apply forallb_forall; intros c Hc; apply P; exact Hc.
Qed.


Lemma digits_space_of_digits (l : list ascii) :
  forallb isdigit l = true -> forallb (fun c => isdigit c || Ascii.eqb c " ") l = true.
Proof.
  rewrite !forallb_forall; intros Hl c Hc; rewrite (Hl c Hc); reflexivity.
Qed.



Lemma parse_point_token_zero (py_float : string -> result Q) (x y' : list ascii) :
  digit_run x = true -> forallb isdigit y' = true ->
  parse_point py_float (point_token (x, "0" :: y')%char) = Err ValueError.
Proof.
  intros Hx Hy.
  assert (Dx := digit_run_forall x Hx).
  unfold parse_point, point_token; simpl fst; simpl snd.
  rewrite drop_space_zero_digits by exact Dx.
  change (drop_space_zero (" " :: "0" :: y')%char) with (drop_space_zero y').
  rewrite <- (app_nil_r y') at 1; rewrite drop_space_zero_digits by exact Hy.
  cbn [drop_space_zero]; rewrite ?app_nil_r.
  assert (Dxy : forallb isdigit (x ++ y') = true) by (rewrite forallb_app, Dx, Hy; reflexivity).
  rewrite drop_parens_digits_space by (apply digits_space_of_digits; exact Dxy).
  rewrite <- (app_nil_r (x ++ y')), split_ws_app by exact Dxy.
  rewrite split_ws_nil; [reflexivity |].
  rewrite app_nil_r; apply rev_nonempty; destruct x; [discriminate | discriminate].
Qed.


Lemma mapM_ok_each {A B} (f : A -> result B) (l : list A) (ys : list B) :
  mapM f l = Ok ys -> forall x, In x l -> is_ok (f x) = true.
Proof.
  revert ys; induction l as [| a l IH]; intros ys E x Hx; [destruct Hx |].
  simpl in E; destruct (f a) as [b |] eqn:Ea; simpl in E; [| discriminate].
  destruct (mapM f l) as [bs |] eqn:El; simpl in E; [| discriminate].
  destruct Hx as [<- | Hx]; [rewrite Ea; reflexivity | exact (IH bs eq_refl x Hx)].
Qed.

Lemma point_token_shape (x y : list ascii) :
  digit_run x = true -> digit_run y = true ->
  starts_digit (point_token (x, y)) && ends_digit (point_token (x, y))
    && no_comma (point_token (x, y)) = true.
Proof.
  intros Hx Hy; unfold point_token; simpl fst; simpl snd.
  rewrite starts_digit_app by exact Hx.
  replace (x ++ " " :: y)%char with ((x ++ [" "]) ++ y)%char by (rewrite <- app_assoc; reflexivity).
  rewrite ends_digit_app by (apply ends_digit_run; exact Hy).
  rewrite !no_comma_app, (no_comma_digits x), (no_comma_digits y);
    try apply digit_run_forall; auto.
Qed.




(** On such a text, a point whose [y] starts with the digit [0] makes
    the parse fail: [replace(" 0", "")] glues [x] to the rest of [y],
    and [x, y = point.split()] raises. *)
Theorem parse_polygon_str_zero_y_fails (py_float : string -> result Q) (pre suf : list ascii)
    (pts : list (list ascii * list ascii)) :
  no_digit pre = true -> no_digit suf = true ->
  forallb (fun xy => digit_run (fst xy) && digit_run (snd xy)) pts = true ->
  existsb (fun xy => negb (digit_run_nz (snd xy))) pts = true ->
  is_ok (parse_polygon_str py_float
           (string_of_list_ascii (pre ++ join_comma_space (map point_token pts) ++ suf))) = false.
Proof.
  intros Hpre Hsuf Hpts Hz.
  assert (Hne : pts <> []) by (intros ->; discriminate).
  rewrite forallb_forall in Hpts.
  rewrite parse_structure; auto.
  - apply existsb_exists in Hz as [[x y] [Hxy Hz]].
    destruct (mapM (parse_point py_float) (map point_token pts)) as [ys |] eqn:E; [| reflexivity].
    pose proof (mapM_ok_each _ _ _ E (point_token (x, y)) (in_map _ _ _ Hxy)) as Hok.
    specialize (Hpts _ Hxy); apply andb_prop in Hpts as [Hx Hy]; simpl fst in Hx; simpl snd in Hy.
    destruct y as [| cy y']; [discriminate |].
    destruct (Ascii.eqb_spec cy "0") as [-> | Hne0].
    + rewrite parse_point_token_zero in Hok; [discriminate | exact Hx |].
      simpl in Hy; exact Hy.
    + exfalso; unfold digit_run_nz in Hz; simpl snd in Hz; rewrite Hy in Hz.
      apply Ascii.eqb_neq in Hne0; rewrite Hne0 in Hz; discriminate.
  - destruct pts; [congruence | discriminate].
  - apply forallb_forall; intros t Ht; apply in_map_iff in Ht as [[x y] [<- Hxy]].
    specialize (Hpts _ Hxy); apply andb_prop in Hpts as [Hx Hy].
    apply point_token_shape; assumption.
Qed.

End Parse_extra.

Section Flatten_extra.
Context {G : Type} `{Shapely G}.

Lemma emit_bboxes_cols (r : nat) (polygon : G) (bbs : list G) (s : fp_state) :
  geometry (emit_bboxes r polygon bbs s) = geometry s ++ repeat polygon (List.length bbs) /\
  rows_refs (emit_bboxes r polygon bbs s) = rows_refs s ++ repeat r (List.length bbs).
Proof.
  revert s; induction bbs as [| b bs IH]; intro s; simpl.
  - rewrite !app_nil_r; split; reflexivity.
  - destruct (IH (append_row r polygon (set_item r "bbox" (VGeom b) s))) as [A B].
    rewrite A, B; simpl; rewrite <- !app_assoc; split; reflexivity.
Qed.

Lemma multi_rows_cols (group : frame G) (U : G) (i : nat) (parts : list G) (s s' : fp_state) :
  multi_rows group U i parts s = Ok s' ->
  geometry s' = geometry s ++ repeat U (List.length parts * List.length (fst (get_polygon_bboxes U))) /\
  List.length (rows_refs s') = (List.length (rows_refs s) + List.length parts * List.length (fst (get_polygon_bboxes U)))%nat.
Proof.
  revert i s; induction parts as [| p ps IH]; intros i s E; simpl in E.
  - injection E as <-; simpl; rewrite app_nil_r; split; [reflexivity | lia].
  - destruct (nth_error group i) as [[d g] |]; [| discriminate].
    destruct (get_polygon_bboxes U) as [bbs msgs] eqn:Eb; simpl fst.
    destruct (IH _ _ E) as [A B]; simpl fst in A, B.
    match type of A with
    | context [emit_bboxes ?r U bbs ?s0] => destruct (emit_bboxes_cols r U bbs s0) as [C D]
    end.
    rewrite C in A; rewrite D, length_app, repeat_length in B; simpl in A, B.
    rewrite A, <- app_assoc, <- repeat_app; simpl; split; [f_equal; f_equal; lia | lia].
Qed.

Lemma bboxes_multi_length (U : G) :
  geom_type U = "MultiPolygon" -> List.length (fst (get_polygon_bboxes U)) = List.length (geoms U).
Proof.
  intro Hm; unfold get_polygon_bboxes; rewrite Hm; simpl; apply length_map.
Qed.

Lemma flatten_group_cols (group : frame G) (s s' : fp_state) :
  flatten_group group s = Ok s' ->
  geometry s' = geometry s ++ group_geometry group /\
  List.length (rows_refs s') = (List.length (rows_refs s) + List.length (group_geometry group))%nat.
Proof.
  unfold flatten_group, group_geometry, group_union.
  destruct (String.eqb_spec (geom_type (unary_union (map snd group))) "MultiPolygon") as [Hm | Hm].
  - intro E; destruct (multi_rows_cols _ _ _ _ _ _ E) as [A B].
    rewrite bboxes_multi_length in A, B by exact Hm.
    rewrite repeat_length; split; assumption.
  - destruct (nth_error group 0) as [[d g] |]; [| discriminate].
    destruct (get_polygon_bboxes (normalize (unary_union (map snd group)))) as [bbs msgs] eqn:Eb.
    intro E; injection E as <-; simpl fst.
    match goal with
    | |- context [emit_bboxes ?r ?p bbs ?s0] => destruct (emit_bboxes_cols r p bbs s0) as [C D]
    end.
    rewrite C, D, length_app, !repeat_length; simpl; split; reflexivity.
Qed.

Lemma flatten_groups_cols (groups : list (frame G)) (s s' : fp_state) :
  flatten_groups groups s = Ok s' ->
  geometry s' = geometry s ++ List.concat (map group_geometry groups) /\
  List.length (rows_refs s') =
    (List.length (rows_refs s) + List.length (List.concat (map group_geometry groups)))%nat.
Proof.
  revert s; induction groups as [| g gs IH]; intros s E; simpl in E.
  - injection E as <-; simpl; rewrite app_nil_r; split; [reflexivity | lia].
  - destruct (flatten_group g s) as [s1 |] eqn:E1; simpl in E; [| discriminate].
    destruct (flatten_group_cols _ _ _ E1) as [A B].
    destruct (IH _ E) as [C D].
    simpl; rewrite C, A, <- app_assoc, D, B, length_app; split; [reflexivity | lia].
Qed.

Lemma map_snd_combine {A B} (l : list A) (l' : list B) :
  List.length l = List.length l' -> map snd (combine l l') = l'.
Proof.
  revert l'; induction l as [| a l IH]; intros [| b l'] Hl; simpl in *; try congruence.
  f_equal; apply IH; lia.
Qed.

(** The [geometry] column of [flatten_polygons] is, group after group,
    the group's [group_geometry]: for a MultiPolygon union [U] of [n]
    parts, [U] itself [n * n] times (never the parts); otherwise the
    normalised union once per box. *)
Theorem flatten_polygons_geometry_column (gdf : frame G) (keys : list string)
    (groups : list (frame G)) (out : frame G) :
  groupby gdf (Some keys) = Ok groups ->
  flatten_polygons gdf (Some keys) = Ok out ->
  map snd out = List.concat (map group_geometry groups).
Proof.
  intros Hg E; unfold flatten_polygons in E; rewrite Hg in E; simpl in E.
  destruct (flatten_groups groups fp_init) as [s |] eqn:Es; simpl in E; [| discriminate].
  injection E as <-.
  destruct (flatten_groups_cols _ _ _ Es) as [A B]; simpl in A, B.
  unfold materialise; rewrite map_snd_combine, A; [reflexivity |].
  rewrite length_map, A, B; reflexivity.
Qed.

Lemma mapM_err {A B} (f : A -> result B) (l : list A) (e : exn) :
  (forall x er, In x l -> f x = Err er -> er = e) ->
  (exists x, In x l /\ is_ok (f x) = false) ->
  mapM f l = Err e.
Proof.
  induction l as [| a l IH]; intros Herr [x [Hx Hf]]; [destruct Hx |].
  simpl; destruct (f a) as [b |] eqn:Ea; simpl.
  - destruct Hx as [-> | Hx]; [rewrite Ea in Hf; discriminate |].
    rewrite IH; [reflexivity | intros y er Hy; apply Herr; right; exact Hy | exists x; auto].
  - f_equal; apply (Herr a e0); [left; reflexivity | exact Ea].
Qed.

End Flatten_extra.



Lemma smap_set_keys (m : list (string * string)) (k v x : string) :
  In x (map fst (smap_set m k v)) -> x = k \/ In x (map fst m).
Proof.
  induction m as [| [k' v'] m IH]; simpl.
  - intros [-> | []]; left; reflexivity.
  - destruct (String.eqb k k'); simpl; [tauto |].
    intros [-> | Hx]; [right; left; reflexivity |].
    destruct (IH Hx); tauto.
Qed.

Lemma smap_set_nodup (m : list (string * string)) (k v : string) :
  NoDup (map fst m) -> NoDup (map fst (smap_set m k v)).
Proof.
  induction m as [| [k' v'] m IH]; simpl; intro Hn.
  - constructor; [intros [] | constructor].
  - inversion Hn as [| ? ? Hk' Hm]; subst.
    destruct (String.eqb_spec k k') as [-> | Hne]; simpl; [constructor; assumption |].
    constructor; [| exact (IH Hm)].
    intro Hin; destruct (smap_set_keys _ _ _ _ Hin) as [-> | Hin']; [congruence | contradiction].
Qed.








Section Metadata_extra.
Context {G : Type} `{Shapely G}.
Context (path_exists : string -> bool).
Context (open_image : string -> option (Z * Z)).
Context (parse_filename : dict G * G -> string).





(** When no row's image exists, [map_metadata] returns an empty frame,
    whatever columns [preserve_fields] names. *)
Theorem map_metadata_no_images (gdf : frame G) (dir : string) (pf : option preserve) :
  (forall row, In row gdf -> path_exists (dir ++ "/" ++ parse_filename row)%string = false) ->
  map_metadata path_exists open_image parse_filename gdf dir pf = Ok [].
Proof.
  unfold map_metadata; induction gdf as [| row rows IH]; intro Hno; simpl; [reflexivity |].
  unfold metadata_step; rewrite (Hno row (or_introl eq_refl)); simpl.
  apply IH; intros r Hr; exact (Hno r (or_intror Hr)).
Qed.

End Metadata_extra.

Lemma field_map_list_step_nodup (fm : list (string * string)) (item : field_item) :
  NoDup (map fst fm) ->
  NoDup (map fst (match item with
                  | FStr s => smap_set fm s s
                  | FDict m => fold_left (fun fm' kv => smap_set fm' (fst kv) (snd kv)) m fm
                  | FOther => fm
                  end)).
Proof.
  intro Hn; destruct item as [s | m |]; [apply smap_set_nodup; exact Hn | | exact Hn].
  revert fm Hn; induction m as [| kv m IH]; intros fm Hn; simpl; [exact Hn |].
  apply IH, smap_set_nodup, Hn.
Qed.

(** With a list [preserve_fields], the normalised [field_map] is a dict:
    every new column name appears once. *)
Theorem field_map_of_list_nodup (items : list field_item) :
  NoDup (map fst (field_map_of (Some (PreserveList items)))).
Proof.
  unfold field_map_of.
  assert (Hfm : forall fm, NoDup (map fst fm) ->
    NoDup (map fst (fold_left (fun fm item =>
                   match item with
                   | FStr s => smap_set fm s s
                   | FDict m => fold_left (fun fm' kv => smap_set fm' (fst kv) (snd kv)) m fm
                   | FOther => fm
                   end) items fm))).
  { induction items as [| it items IH]; intros fm Hn; simpl; [exact Hn |].
    apply IH, field_map_list_step_nodup, Hn. }
  apply Hfm; constructor.
Qed.

Lemma prefix_app (s t : string) : String.prefix s (s ++ t) = true.
Proof.
  induction s as [| a s IH]; simpl; [destruct t; reflexivity |].
  destruct (ascii_dec a a); [exact IH | contradiction].
Qed.

Lemma index_app (pre s post : string) : String.index 0 s (pre ++ s ++ post) <> None.
Proof.
  induction pre as [| c pre IH]; cbn [String.append].
  - destruct (s ++ post)%string as [| b r] eqn:E.
    + destruct s; [discriminate | discriminate].
    + pose proof (prefix_app s post) as P; rewrite E in P.
      cbn [String.index]; rewrite P; discriminate.
  - cbn [String.index].
    destruct (String.prefix s (String c (pre ++ s ++ post))); [discriminate |].
    destruct (String.index 0 s (pre ++ s ++ post)); [discriminate | contradiction].
Qed.

Lemma substring_full (s : string) (n : nat) :
  (String.length s <= n)%nat -> substring 0 n s = s.
Proof.
  revert n; induction s as [| a s IH]; intros [| n] Hn; simpl in *; try reflexivity; try lia.
  f_equal; apply IH; lia.
Qed.

Lemma substring_app (a b : string) : substring 0 (String.length a) (a ++ b) = a.
Proof. apply prefix_correct, prefix_app. Qed.

Lemma str_contains_app (pre s post : string) : str_contains s (pre ++ s ++ post) = true.
Proof.
  unfold str_contains; destruct (String.index 0 s (pre ++ s ++ post)) eqn:E; [reflexivity |].
  exfalso; exact (index_app _ _ _ E).
Qed.

Lemma length_sappend (a b : string) :
  String.length (a ++ b) = (String.length a + String.length b)%nat.
Proof. induction a as [| c a IH]; simpl; [reflexivity | rewrite IH; reflexivity]. Qed.

Lemma sappend_nil (s : string) : (s ++ "")%string = s.
Proof. induction s as [| c s IH]; simpl; [reflexivity | rewrite IH; reflexivity]. Qed.

(** [compare_stem] keeps a stem that extends one of the names, and also a
    stem that occurs anywhere inside one of them. *)
Theorem image_paths_keeps (stems tif_files : list string) (p name : string) :
  In p tif_files -> In name stems ->
  (exists rest, path_stem p = (name ++ rest)%string) \/
  (exists pre post, name = (pre ++ path_stem p ++ post)%string) ->
  In p (image_paths stems tif_files).
Proof.
  intros Hp Hn Hs; unfold image_paths; apply filter_In; split; [exact Hp |].
  unfold compare_stem; apply existsb_exists; exists name; split; [exact Hn |].
  destruct Hs as [[rest E] | [pre [post E]]]; rewrite E.
  - rewrite substring_app.
    pose proof (str_contains_app "" name "") as C; simpl in C.
    rewrite sappend_nil in C; exact C.
  - rewrite substring_full; [apply str_contains_app |].
    rewrite !length_sappend; lia.
Qed.

Lemma filter_nil_false {A} (P : A -> bool) (l : list A) :
  filter P l = [] -> forall y, In y l -> P y = false.
Proof.
  intros E y Hy; destruct (P y) eqn:Py; [| reflexivity].
  assert (Hin : In y (filter P l)) by (apply filter_In; auto).
  rewrite E in Hin; destruct Hin.
Qed.

Section Tiles_extra.
Context {G : Type} `{Shapely G}.
Context (raster_open : string -> option dataset).
Context (create_window : Z -> Z -> Z -> Z -> window).

Lemma tiles_loop_fails (gdf : frame G) (paths : list string) (q : string) :
  In q paths -> raster_open q = None ->
  tiles_loop raster_open create_window gdf paths = Err RasterioIOError.
Proof.
  induction paths as [| p ps IH]; intros Hq Hno; [destruct Hq |].
  simpl; unfold tile_rows at 1.
  destruct (raster_open p) as [src |] eqn:Ep; simpl; [| reflexivity].
  destruct Hq as [-> | Hq]; [congruence |].
  destruct (filter _ gdf);
    simpl; rewrite (IH Hq Hno); reflexivity.
Qed.

(** A tile that passes the filename filter but cannot be opened makes
    [map_geometry_to_geotiffs] raise [RasterioIOError]. *)
Theorem map_geometry_open_failure (gdf : frame G) (tif_files stems : list string) (q : string) :
  orig_stems gdf = Ok stems -> In q (image_paths stems tif_files) -> raster_open q = None ->
  map_geometry_to_geotiffs raster_open create_window gdf tif_files = Err RasterioIOError.
Proof.
  intros Hs Hq Hno; unfold map_geometry_to_geotiffs; rewrite Hs; simpl.
  rewrite (tiles_loop_fails _ _ _ Hq Hno); reflexivity.
Qed.

(** The output of [map_geometry_to_geotiffs] has no two equal rows. *)
Theorem map_geometry_no_duplicates (gdf : frame G) (tif_files : list string) (out : frame G) :
  map_geometry_to_geotiffs raster_open create_window gdf tif_files = Ok out -> NoDup out.
Proof.
  unfold map_geometry_to_geotiffs.
  destruct (orig_stems gdf) as [stems |]; cbn [bind]; [| discriminate].
  destruct (tiles_loop _ _ _ _) as [rows |]; cbn [bind]; [| discriminate].
  intro E; injection E as <-; apply drop_duplicates_nodup.
Qed.

(** Every output row of [map_geometry_to_geotiffs] is the row of a tile
    that passed the filename filter and opened, with as geometry a part
    of [Polygon()] when no record meets the tile's footprint, or else a
    part of the clip of a record that meets it. *)
Theorem map_geometry_row_origin (gdf : frame G) (tif_files : list string) (out : frame G)
    (y : dict G * G) :
  map_geometry_to_geotiffs raster_open create_window gdf tif_files = Ok out -> In y out ->
  exists stems q src,
    orig_stems gdf = Ok stems /\ In q (image_paths stems tif_files) /\
    raster_open q = Some src /\ fst y = tile_row q src /\
    let fp := tile_footprint create_window src in
    ((forall r, In r gdf -> intersects (snd r) fp = false) /\
       In (snd y) (get_parts empty_polygon) \/
     exists r, In r gdf /\ intersects (snd r) fp = true /\
       In (snd y) (get_parts (intersection (snd r) fp))).
Proof.
  unfold map_geometry_to_geotiffs.
  destruct (orig_stems gdf) as [stems |] eqn:Es; cbn [bind]; [| discriminate].
  destruct (tiles_loop _ _ _ _) as [rows |] eqn:Et; cbn [bind]; [| discriminate].
  intros E Hy; injection E as <-.
  unfold drop_duplicates in Hy; apply (drop_duplicates_sub [] (explode rows) y) in Hy.
  destruct (explode_origin _ _ Hy) as [x [Hx [Hfst Hpart]]].
  destruct (tiles_loop_origin _ _ _ _ _ Et x Hx) as [q [rs [Hq [Eq Hxrs]]]].
  destruct (tile_rows_ok _ _ _ _ _ Eq) as [src [Eo ->]].
  exists stems, q, src; split; [reflexivity |]; split; [exact Hq |]; split; [exact Eo |].
  destruct (filter (fun r => intersects (snd r) (tile_footprint create_window src)) gdf)
    as [| h t] eqn:Ef.
  - destruct Hxrs as [<- | []]; split; [exact Hfst |]; left; split; [| exact Hpart].
    intros r Hr; exact (filter_nil_false _ gdf Ef r Hr).
  - rewrite <- Ef in Hxrs; apply in_map_iff in Hxrs as [r [<- Hr]].
    apply filter_In in Hr as [Hr Hi].
    split; [exact Hfst |]; right; exists r; split; [exact Hr | split; [exact Hi | exact Hpart]].
Qed.

(** When no row of a non-empty frame has a ["filename"] entry, the
    column is absent: [gdf["filename"]] raises [KeyError], in [orig_stems]
    and so in [map_geometry_to_geotiffs]. *)
Lemma orig_stems_no_filename_column (gdf : frame G) (tif_files : list string) :
  gdf <> [] ->
  (forall r, In r gdf -> dict_get (fst r) "filename" = None) ->
  orig_stems gdf = Err KeyError /\
  map_geometry_to_geotiffs raster_open create_window gdf tif_files = Err KeyError.
Proof.
  intros Hne Hnone.
  assert (Hc : has_column gdf "filename" = false).
  { unfold has_column; simpl.
    destruct gdf as [| r0 rs]; [congruence |].
    apply not_true_iff_false; intro Hex; apply existsb_exists in Hex.
    destruct Hex as [r [Hr Hs]]; rewrite (Hnone r Hr) in Hs; discriminate. }
  assert (Ho : orig_stems gdf = Err KeyError) by (unfold orig_stems; rewrite Hc; reflexivity).
  split; [exact Ho |]; unfold map_geometry_to_geotiffs; rewrite Ho; reflexivity.
Qed.

(** When the ["filename"] column exists but some row's cell is
    missing (NaN) or not a string, [os.path.splitext] raises [TypeError],
    in [orig_stems] and so in [map_geometry_to_geotiffs]. *)
Lemma orig_stems_bad_filename_cell (gdf : frame G) (tif_files : list string) (r : dict G * G) :
  has_column gdf "filename" = true ->
  In r gdf ->
  (forall s, row_value r "filename" <> VStr s) ->
  orig_stems gdf = Err TypeError /\
  map_geometry_to_geotiffs raster_open create_window gdf tif_files = Err TypeError.
Proof.
  intros Hc Hr Hbad.
  assert (Ho : orig_stems gdf = Err TypeError).
  { unfold orig_stems; rewrite Hc; simpl.
    rewrite (mapM_err _ gdf TypeError); [reflexivity | |].
    - intros x er _; destruct (row_value x "filename"); intro E; try discriminate;
        injection E as <-; reflexivity.
    - exists r; split; [exact Hr |].
      destruct (row_value r "filename") eqn:E; try reflexivity.
      exfalso; exact (Hbad s eq_refl). }
  split; [exact Ho |]; unfold map_geometry_to_geotiffs; rewrite Ho; reflexivity.
Qed.

End Tiles_extra.

(* ================================================================== *)
(** * Instances of the further properties on the grid engine *)

(** Two disjoint unit squares as one MultiPolygon: flattening keeps both. *)
Lemma flatten_part_count_witness :
  (List.length [Grid.GPolygon [(0%Z, 0%Z)]; Grid.GPolygon [(3%Z, 0%Z)]]
     <= List.length (geoms (Grid.GMultiPolygon [Grid.cells_of Inputs.unit_a;
                                                Grid.cells_of Inputs.unit_b])))%nat /\
  (geoms (Grid.GMultiPolygon [Grid.cells_of Inputs.unit_a; Grid.cells_of Inputs.unit_b]) <> [] ->
   [Grid.GPolygon [(0%Z, 0%Z)]; Grid.GPolygon [(3%Z, 0%Z)]] <> []).
Proof.
  apply (flatten_part_count
           (Grid.GMultiPolygon [Grid.cells_of Inputs.unit_a; Grid.cells_of Inputs.unit_b])
           [Grid.GPolygon [(0%Z, 0%Z)]; Grid.GPolygon [(3%Z, 0%Z)]]);
    vm_compute; reflexivity.
Defined.

Lemma flatten_disjoint_parts_unchanged_witness :
  get_geom_polygons (Grid.GMultiPolygon [Grid.cells_of Inputs.unit_a; Grid.cells_of Inputs.unit_b])
    true =
  get_geom_polygons (Grid.GMultiPolygon [Grid.cells_of Inputs.unit_a; Grid.cells_of Inputs.unit_b])
    false.
Proof.
  apply flatten_disjoint_parts_unchanged; vm_compute; reflexivity.
Defined.



Lemma parse_polygon_str_zero_y_fails_witness :
  is_ok (parse_polygon_str Inputs.digits_float
    (string_of_list_ascii (list_ascii_of_string "POLYGON ((" ++
       join_comma_space (map point_token [(["1"%char], ["0"%char]); (["3"%char], ["4"%char])]) ++
       list_ascii_of_string "))"))) = false.
Proof.
  apply parse_polygon_str_zero_y_fails; vm_compute; reflexivity.
Defined.

(** The two records of one group: their union has two parts, and the
    column holds the MultiPolygon four times. *)
Lemma flatten_polygons_geometry_column_witness :
  exists out, flatten_polygons Inputs.two_records (Some ["id"]) = Ok out /\
    map snd out = List.concat (map group_geometry [Inputs.two_records]).
Proof.
  destruct (flatten_polygons Inputs.two_records (Some ["id"])) as [out | e] eqn:E;
    [| vm_compute in E; discriminate].
  exists out; split; [reflexivity |].
  exact (flatten_polygons_geometry_column Inputs.two_records ["id"] [Inputs.two_records] out
           ltac:(vm_compute; reflexivity) E).
Defined.



Lemma map_metadata_no_images_witness :
  map_metadata Inputs.meta_exists Inputs.meta_open Inputs.meta_name Inputs.meta_rows "/data"
    (Some (PreserveList [FStr "label"])) = Ok [].
Proof.
  apply map_metadata_no_images; intros row [<- | [<- | []]]; reflexivity.
Defined.


(** A tile named ["a.tif"] is kept for the stem ["tile_a"]. *)
Lemma image_paths_keeps_witness :
  In "/d/a.tif" (image_paths ["tile_a"] ["/d/a.tif"; "/d/b.tif"]).
Proof.
  apply (image_paths_keeps ["tile_a"] ["/d/a.tif"; "/d/b.tif"] "/d/a.tif" "tile_a");
    [left; reflexivity | left; reflexivity |].
  right; exists "tile_", ""; reflexivity.
Defined.

(** The two tiles of the annotation, the second of which no longer opens. *)
Lemma map_geometry_open_failure_witness :
  map_geometry_to_geotiffs
    (fun p => if String.eqb p "/d/tile_b.tif" then None else Inputs.tiles_open p)
    Inputs.window_of Inputs.annotations Inputs.tile_files = Err RasterioIOError.
Proof.
  apply (map_geometry_open_failure _ _ Inputs.annotations Inputs.tile_files ["tile"]
           "/d/tile_b.tif"); vm_compute; [reflexivity | right; left; reflexivity | reflexivity].
Defined.

(** A non-empty frame without a ["filename"] column. *)
Lemma orig_stems_no_filename_column_witness :
  ([([("label", VInt 3%Z)], Inputs.unit_a)] : frame Grid.ggeom) <> [] /\
  map_geometry_to_geotiffs Inputs.tiles_open Inputs.window_of
    [([("label", VInt 3%Z)], Inputs.unit_a)] Inputs.tile_files = Err KeyError.
Proof.
  split; [discriminate |].
  apply (@orig_stems_no_filename_column Grid.ggeom Grid.grid_shapely Inputs.tiles_open
           Inputs.window_of [([("label", VInt 3%Z)], Inputs.unit_a)] Inputs.tile_files);
    [discriminate | intros r [<- | []]; reflexivity].
Defined.

(** Two rows, the second of which has no ["filename"] cell. *)
Lemma orig_stems_bad_filename_cell_witness :
  map_geometry_to_geotiffs Inputs.tiles_open Inputs.window_of
    [([("filename", VStr "tile.tif")], Inputs.unit_a); ([("label", VInt 3%Z)], Inputs.unit_b)]
    Inputs.tile_files = Err TypeError.
Proof.
  apply (@orig_stems_bad_filename_cell Grid.ggeom Grid.grid_shapely Inputs.tiles_open
           Inputs.window_of
           [([("filename", VStr "tile.tif")], Inputs.unit_a); ([("label", VInt 3%Z)], Inputs.unit_b)]
           Inputs.tile_files ([("label", VInt 3%Z)], Inputs.unit_b));
    [reflexivity | right; left; reflexivity | intros s; discriminate].
Defined.

Lemma map_geometry_no_duplicates_witness : NoDup Inputs.tiles_out.
Proof.
  apply (@map_geometry_no_duplicates Grid.ggeom Grid.grid_shapely Inputs.tiles_open
           Inputs.window_of Inputs.annotations Inputs.tile_files); vm_compute; reflexivity.
Defined.

Lemma map_geometry_row_origin_witness :
  exists stems q src,
    orig_stems Inputs.annotations = Ok stems /\ In q (image_paths stems Inputs.tile_files) /\
    Inputs.tiles_open q = Some src /\
    fst (nth 1 Inputs.tiles_out ([], empty_polygon)) = tile_row q src.
Proof.
  destruct (@map_geometry_row_origin Grid.ggeom Grid.grid_shapely Inputs.tiles_open
              Inputs.window_of Inputs.annotations
              Inputs.tile_files Inputs.tiles_out (nth 1 Inputs.tiles_out ([], empty_polygon))
              ltac:(vm_compute; reflexivity) ltac:(right; left; reflexivity))
    as [stems [q [src [A [B [C [D _]]]]]]].
  exists stems, q, src; auto.
Defined.

